(** * Streaming chat client: SSE reassembly, event interpretation, transcript

    A shallow embedding of the streaming logic of the chat front end
    (component [App]: [processEvent], [handleSubmit], [appendChunk],
    [initialMessages]) together with the properties stated about it.

    - JavaScript strings are sequences of UTF-16 code units; they are
      modelled as lists of code units ([N]).  The byte stream delivered by
      the transport is a list of [byte]s per delivery chunk.
    - [JSON.parse] and [TextDecoder] are services of the runtime: the
      development is parametric in them (classes [JsonRuntime] and
      [TextDecoder]), and module [Reference] gives concrete instances on
      which the model can be run.
    - [processEvent] and the read loop update React state and may throw;
      they are written in a state-and-exception monad [M S], generic in the
      state [S], so that the same code can be run on the component state
      and on a log.
    - [handleSubmit] is asynchronous: it is given the results of the
      transport that have arrived so far ([FetchResult]) and tells where the
      call stands once they are consumed ([Outcome]).  State updates take
      effect in the order the setters are called, on the state of the
      component; what the handler reads is the state of the render that
      made it ([handleSubmit_of_render]).  The abort controller, the release
      of the reader and the scrolling effect carry no state of the
      transcript and are left out; a cancellation shows as a read or fetch
      rejected with [AbortError].
    - The theme, the route of the service, the form and the text helpers of
      [ChatMessage] ([normalizeMath], the renderer of code elements) are
      modelled after the session. *)

From Stdlib Require Import NArith ZArith Ascii String.
From Stdlib.Strings Require Import Byte.
From stdpp Require Import base decidable option list gmap.

Set Warnings "-register-all".

Open Scope N_scope.
Open Scope list_scope.

(** ** Text: JavaScript strings *)

Abbreviation char := N.
Abbreviation text := (list N).

(** A string literal of the source, as code units (ASCII literals only). *)
Definition utf16 (s : string) : text :=
  map N_of_ascii (list_ascii_of_string s).

(** The same for a literal that holds double quotes: they are written as
    apostrophes (code 39) and stand for code 34. *)
Definition quoted (s : string) : text :=
  map (fun c => if c =? 39 then 34 else c) (utf16 s).

Definition LF : char := 10.

(** The characters matched by the regular expression class [\s], which are
    also the characters removed by [String.prototype.trim] (WhiteSpace and
    LineTerminator of ECMAScript). *)
Definition is_space (c : char) : bool :=
  (9 <=? c) && (c <=? 13)
  || (c =? 32) || (c =? 160) || (c =? 5760)
  || (8192 <=? c) && (c <=? 8202)
  || (c =? 8232) || (c =? 8233) || (c =? 8239) || (c =? 8287)
  || (c =? 12288) || (c =? 65279).

Fixpoint trimStart (s : text) : text :=
  match s with
  | c :: s' => if is_space c then trimStart s' else s
  | [] => []
  end.

Definition trimEnd (s : text) : text := rev (trimStart (rev s)).

(** [s.trim()] *)
Definition trim (s : text) : text := trimEnd (trimStart s).

(** [s.startsWith(p)] *)
Fixpoint startsWith (p s : text) : bool :=
  match p, s with
  | [], _ => true
  | a :: p', b :: s' => (a =? b) && startsWith p' s'
  | _ :: _, [] => false
  end.

(** Leftmost occurrence of [sep] in [s]: the text before it and the text
    after it. *)
Fixpoint find_first (sep s : text) : option (text * text) :=
  if startsWith sep s then Some ([], drop (length sep) s)
  else match s with
       | [] => None
       | c :: s' =>
           match find_first sep s' with
           | Some (before, after) => Some (c :: before, after)
           | None => None
           end
       end.

Fixpoint split_from (fuel : nat) (sep s : text) : list text :=
  match fuel with
  | O => [s]
  | S fuel' =>
      match find_first sep s with
      | Some (before, after) => before :: split_from fuel' sep after
      | None => [s]
      end
  end.

(** [s.split(sep)] for a string separator and no limit.  With the empty
    separator the string is cut into its code units. *)
Definition split (sep s : text) : list text :=
  match sep with
  | [] => map (fun c => [c]) s
  | _ :: _ => split_from (length s) sep s
  end.

Arguments split : simpl never.

(** [segments.join(sep)] *)
Fixpoint join (sep : text) (segments : list text) : text :=
  match segments with
  | [] => []
  | [s] => s
  | s :: rest => s ++ sep ++ join sep rest
  end.

(** [segments.pop()]: the array without its last element and that element,
    [None] (undefined) on the empty array. *)
Definition pop {A} (l : list A) : list A * option A :=
  (removelast l, last l).

(** [s.replace(/^data:\s*/, '')] *)
Definition strip_data_prefix (s : text) : text :=
  if startsWith (utf16 "data:") s then trimStart (drop 5 s) else s.

(** ** Values returned by [JSON.parse] *)

(** A number is kept as the decimal [mantissa * 10 ^ exponent10] its literal
    denotes; the code never computes with numbers, it only tests them for
    truthiness. *)
Inductive JsValue :=
| JNull
| JBool (b : bool)
| JNum (mantissa exponent10 : Z)
| JStr (s : text)
| JArr (items : list JsValue)
| JObj (fields : list (text * JsValue)).

(** Own property of an object, keys compared as strings. *)
Fixpoint own_property (key : text) (fields : list (text * JsValue))
  : option JsValue :=
  match fields with
  | [] => None
  | (k, v) :: rest =>
      if bool_decide (k = key) then Some v else own_property key rest
  end.

(** The decimal rounds to the Number 0: it is at most half the smallest
    positive double, [2 ^ -1075] (ties go to the even neighbour, 0). *)
Definition rounds_to_zero (m e : Z) : bool :=
  ((m =? 0) || (e <? 0) && (Z.abs m * 2 ^ 1075 <=? 10 ^ (- e)))%Z.

(** ToBoolean. *)
Definition ToBoolean (v : JsValue) : bool :=
  match v with
  | JNull => false
  | JBool b => b
  | JNum m e => negb (rounds_to_zero m e)
  | JStr s => negb (bool_decide (s = []))
  | JArr _ | JObj _ => true
  end.

(** ToString of a value returned by [JSON.parse], as [new Error(v)] applies
    it to its argument.  An array is joined with commas, [null] elements
    giving the empty text; an object without an own property [toString] is
    rendered by [Object.prototype.toString].  [None] where the conversion
    gives no text known here: a Number is rendered by the arithmetic of the
    engine on doubles, and an object with an own property [toString] (a
    value of JSON, not callable) makes the conversion throw a TypeError. *)
Fixpoint ToString (v : JsValue) : option text :=
  match v with
  | JNull => Some (utf16 "null")
  | JBool b => Some (if b then utf16 "true" else utf16 "false")
  | JNum _ _ => None
  | JStr s => Some s
  | JArr items =>
      join [44] <$>
        (fix elements (l : list JsValue) : option (list text) :=
           match l with
           | [] => Some []
           | x :: rest =>
               s ← match x with JNull => Some [] | _ => ToString x end;
               t ← elements rest;
               Some (s :: t)
           end) items
  | JObj fields =>
      match own_property (utf16 "toString") fields with
      | Some _ => None
      | None => Some (utf16 "[object Object]")
      end
  end.

(** ** Exceptions *)

Inductive Thrown :=
| SyntaxError (source : text)
    (** [JSON.parse(source)] rejected its argument *)
| TypeError_null (key : text)
    (** reading property [key] of [null] *)
| Error (message : text)
    (** [new Error(message)] for a string [message] *)
| Error_of_value (v : JsValue)
    (** what evaluating [throw new Error(v)] throws for a truthy [v] that is
        not a string: an Error whose message is the text ToString gives for
        [v], or the exception of that conversion *)
| AbortError
    (** the DOMException named AbortError raised by an aborted fetch or read *)
| NetworkError (message : text)
    (** the TypeError of a failed fetch or read *).

(** [error instanceof Error]: every exception above is an Error object. *)
Definition instanceof_Error (e : Thrown) : bool := true.

(** [error.name === 'AbortError'] *)
Definition is_AbortError (e : Thrown) : bool :=
  match e with AbortError => true | _ => false end.

(** A user-facing notice: a string known to the program, or the message text
    the engine attached to an exception of its own (or, for a Number, the
    text it renders it as). *)
Inductive Notice :=
| Literal (s : text)
| EngineMessage (e : Thrown).

(** [error.message] *)
Definition message (e : Thrown) : Notice :=
  match e with
  | Error m => Literal m
  | NetworkError m => Literal m
  | Error_of_value v =>
      match ToString v with
      | Some m => Literal m
      | None => EngineMessage e
      end
  | _ => EngineMessage e
  end.

(** ** Runtime services *)

(** [JSON.parse]: [None] stands for the SyntaxError it throws. *)
Class JsonRuntime := { JSON_parse : text -> option JsValue }.

(** [TextDecoder]: a state machine driven byte by byte; [decode_end] is the
    text produced when the decoder is flushed at the end of the input. *)
Class TextDecoder := {
  decoder : Type;
  new_TextDecoder : decoder;
  decode_byte : decoder -> byte -> decoder * text;
  decode_end : decoder -> text
}.

Fixpoint decode_bytes `{Decoder : TextDecoder} (d : decoder) (bytes : list byte)
  : decoder * text :=
  match bytes with
  | [] => (d, [])
  | b :: rest =>
      let '(d1, t1) := decode_byte d b in
      let '(d2, t2) := decode_bytes d1 rest in
      (d2, t1 ++ t2)
  end.

(** [decoder.decode(bytes, { stream })] *)
Definition decode `{Decoder : TextDecoder} (d : decoder) (bytes : list byte)
    (stream : bool) : decoder * text :=
  let '(d1, t1) := decode_bytes d bytes in
  if stream then (d1, t1) else (new_TextDecoder, t1 ++ decode_end d1).

(** ** Computations that update a state and may throw *)

Definition M (S A : Type) : Type := S -> S * (Thrown + A).

#[global] Instance M_ret {S} : MRet (M S) := fun A a st => (st, inr a).

#[global] Instance M_bind {S} : MBind (M S) := fun A B k m st =>
  match m st with
  | (st', inr a) => k a st'
  | (st', inl e) => (st', inl e)
  end.

Definition throw {S A} (e : Thrown) : M S A := fun st => (st, inl e).

Definition try_catch {S A} (body : M S A) (handler : Thrown -> M S A)
  : M S A := fun st =>
  match body st with
  | (st', inl e) => handler e st'
  | r => r
  end.

Definition modify {S} (f : S -> S) : M S unit := fun st => (f st, inr tt).

(** ** processEvent *)

Section ProcessEvent.
Context `{JSON : JsonRuntime} {S : Type}.

(** [payload.key]; only used with keys that no prototype defines. *)
Definition Get (payload : JsValue) (key : text) : M S (option JsValue) :=
  match payload with
  | JNull => throw (TypeError_null key)
  | JObj fields => mret (own_property key fields)
  | _ => mret None
  end.

(** [v === s] for a string literal [s] *)
Definition strict_eq_string (v : option JsValue) (s : text) : bool :=
  match v with
  | Some (JStr s') => bool_decide (s' = s)
  | _ => false
  end.

(** [typeof v === 'string'] *)
Definition typeof_string (v : option JsValue) : bool :=
  match v with Some (JStr _) => true | _ => false end.

(** [throw new Error(content || fallback)] *)
Definition throw_Error_or {A} (content : option JsValue) (fallback : text)
  : M S A :=
  match content with
  | Some (JStr s) =>
      if ToBoolean (JStr s) then throw (Error s) else throw (Error fallback)
  | Some v =>
      if ToBoolean v then throw (Error_of_value v)
      else throw (Error fallback)
  | None => throw (Error fallback)
  end.

Definition processEvent (chunk : text) (appendChunk : text -> M S unit)
  : M S bool :=
  let dataLine := find (startsWith (utf16 "data:")) (split [LF] chunk) in
  match dataLine with
  | None | Some [] => mret false   (* if (!dataLine) return false *)
  | Some dataLine =>
      try_catch
        (payload ←
           match JSON_parse (strip_data_prefix dataLine) with
           | Some v => mret v
           | None => throw (SyntaxError (strip_data_prefix dataLine))
           end;
         event ← Get payload (utf16 "event");
         is_chunk ←
           (if strict_eq_string event (utf16 "chunk")
            then content ← Get payload (utf16 "content");
                 mret (typeof_string content)
            else mret false);
         if is_chunk : bool then
           content ← Get payload (utf16 "content");
           match content with
           | Some (JStr value) => appendChunk value
           | _ => mret tt
           end;;
           mret false
         else
           event ← Get payload (utf16 "event");
           if strict_eq_string event (utf16 "error") then
             content ← Get payload (utf16 "content");
             throw_Error_or content (utf16 "The assistant ran into an issue.")
           else
             event ← Get payload (utf16 "event");
             if strict_eq_string event (utf16 "done") then mret true
             else mret false)
        (fun error =>
           throw (if instanceof_Error error then error
                  else Error (utf16 "Unexpected response payload.")))
  end.
End ProcessEvent.

(** ** The transport, as seen by [handleSubmit] *)

(** One settled [reader.read()] promise. *)
Inductive ReadResult :=
| Resolved (value : option (list byte)) (done : bool)
| Rejected (e : Thrown).

(** The settled [fetch] promise; [body] lists the results of the successive
    reads of the response body that have arrived so far. *)
Inductive FetchResult :=
| FetchRejected (e : Thrown)
| Response (ok : bool) (body : option (list ReadResult)).

(** ** The read loop of [handleSubmit] *)

(** How the loop leaves off: it ran to its end, or it is suspended at
    [await reader.read()]; in both cases with the value of its local
    variable [buffer]. *)
Inductive LoopExit `{Decoder : TextDecoder} :=
| Finished (buffer : text)
| Awaiting (buffer : text) (d : decoder).

Section ReadLoop.
Context `{Decoder : TextDecoder} {S : Type}.

(** [segment => processEvent(segment, appendChunk)] *)
Variable handle : text -> M S bool.

(** [for (const segment of segments) if (handle(segment)) doneSignal = true] *)
Fixpoint for_segments (segments : list text) (doneSignal : bool) : M S bool :=
  match segments with
  | [] => mret doneSignal
  | segment :: rest =>
      b ← handle segment;
      for_segments rest (if b : bool then true else doneSignal)
  end.

(** [while (!doneSignal) { ... }], driven by the reads that arrive. *)
Fixpoint read_loop (reads : list ReadResult) (d : decoder) (buffer : text)
    (doneSignal : bool) : M S LoopExit :=
  if doneSignal then mret (Finished buffer)
  else
    match reads with
    | [] => mret (Awaiting buffer d)
    | Rejected e :: _ => throw e
    | Resolved value done :: reads' =>
        let '(d, decoded) := decode d (default [] value) (negb done) in
        let buffer := buffer ++ decoded in
        let '(segments, popped) := pop (split [LF; LF] buffer) in
        let buffer := default [] popped in
        doneSignal ← for_segments segments doneSignal;
        if done then
          (if negb (length (trim buffer) =? 0)%nat
           then handle buffer
           else mret false);;
          mret (Finished [])
        else read_loop reads' d buffer doneSignal
    end.
End ReadLoop.

(** The body of the try block of [handleSubmit], from the settled fetch on. *)
Definition stream_response `{JSON : JsonRuntime} `{Decoder : TextDecoder}
    {S : Type} (appendChunk : text -> M S unit) (net : FetchResult)
  : M S LoopExit :=
  match net with
  | FetchRejected e => throw e
  | Response ok body =>
      match (if ok then body else None) with
      | None => throw (Error (utf16 "Unable to connect to the assistant."))
      | Some reads =>
          read_loop (fun segment => processEvent segment appendChunk)
                    reads new_TextDecoder [] false
      end
  end.

(** ** Transcript and component state *)

Inductive Role := user | assistant.

Record Message := {
  id : text;
  role : Role;
  content : text;
  skipContext : option bool
}.

Definition initialMessages : list Message :=
  [ {| id := utf16 "welcome";
       role := assistant;
       content := utf16 "Hello! I am your monochrome AI companion. Ask me anything - math, code, or general questions.";
       skipContext := Some true |} ].

Record AppState := {
  messages : list Message;
  inputValue : text;
  isStreaming : bool;
  errorMessage : option Notice
}.

Definition setMessages (f : list Message -> list Message) (st : AppState)
  : AppState :=
  {| messages := f (messages st); inputValue := inputValue st;
     isStreaming := isStreaming st; errorMessage := errorMessage st |}.

Definition setInputValue (v : text) (st : AppState) : AppState :=
  {| messages := messages st; inputValue := v;
     isStreaming := isStreaming st; errorMessage := errorMessage st |}.

Definition setIsStreaming (b : bool) (st : AppState) : AppState :=
  {| messages := messages st; inputValue := inputValue st;
     isStreaming := b; errorMessage := errorMessage st |}.

Definition setErrorMessage (m : option Notice) (st : AppState) : AppState :=
  {| messages := messages st; inputValue := inputValue st;
     isStreaming := isStreaming st; errorMessage := m |}.

(** The body of [appendChunk]'s state update:
    [current.map(m => m.id === target ? { ...m, content: m.content + value } : m)] *)
Definition append_to (target value : text) (current : list Message)
  : list Message :=
  map (fun message =>
         if bool_decide (id message = target)
         then {| id := id message; role := role message;
                 content := content message ++ value;
                 skipContext := skipContext message |}
         else message)
      current.

(** [!message.skipContext] *)
Definition in_context (message : Message) : bool :=
  negb (default false (skipContext message)).

(** The [messages] field of the request body. *)
Definition request_messages (history : list Message) (userMessage : Message)
  : list (Role * text) :=
  map (fun m => (role m, content m))
      (List.filter in_context (history ++ [userMessage])).

(** How a call of [handleSubmit] stands once the given transport results are
    consumed. *)
Inductive Outcome :=
| Ignored               (** returned at the guard *)
| Suspended             (** waiting for the next read *)
| Returned              (** the try block ran to its end *)
| Caught (e : Thrown)   (** the catch clause ran *).

Record Submission := {
  state : AppState;
  request : option (list (Role * text));
  outcome : Outcome
}.

(** The two messages [handleSubmit] creates. *)
Definition new_user_message (userId trimmed : text) : Message :=
  {| id := userId; role := user; content := trimmed; skipContext := None |}.

Definition new_assistant_message (assistantId : text) : Message :=
  {| id := assistantId; role := assistant; content := [];
     skipContext := None |}.

Section HandleSubmit.
Context `{JSON : JsonRuntime} `{Decoder : TextDecoder}.

(** [handleSubmit] is a closure made by a render of the component: it reads
    [inputValue], [isStreaming] and [messages] as they were in the state
    [rendered] of that render, while the setters, called with values or with
    updaters, act on the state [st] the component is in when the handler
    runs.  [userId] and [assistantId] are the two results of
    [crypto.randomUUID()]. *)
Definition handleSubmit_of_render (rendered : AppState)
    (userId assistantId : text) (net : FetchResult) (st : AppState)
  : Submission :=
  if (length (trim (inputValue rendered)) =? 0)%nat || isStreaming rendered
  then
    {| state := st; request := None; outcome := Ignored |}
  else
    let trimmed := trim (inputValue rendered) in
    let userMessage := new_user_message userId trimmed in
    let assistantMessage := new_assistant_message assistantId in
    let started :=
      setIsStreaming true
        (setErrorMessage None
           (setInputValue []
              (setMessages
                 (fun current => current ++ [userMessage; assistantMessage])
                 st))) in
    let appendChunk (value : text) : M AppState unit :=
      modify (setMessages (append_to (id assistantMessage) value)) in
    let payload := request_messages (messages rendered) userMessage in
    match stream_response appendChunk net started with
    | (st', inr (Awaiting _ _)) =>
        {| state := st'; request := Some payload; outcome := Suspended |}
    | (st', inr (Finished _)) =>
        {| state := setIsStreaming false st'; request := Some payload;
           outcome := Returned |}
    | (st', inl error) =>
        let st' :=
          if is_AbortError error
          then setErrorMessage
                 (Some (Literal (utf16 "Generation cancelled."))) st'
          else setErrorMessage (Some (message error)) st' in
        {| state := setIsStreaming false st'; request := Some payload;
           outcome := Caught error |}
    end.

(** The handler of the latest render, the one the component shows once it
    has rendered the state [st]: what it reads is that state. *)
Definition handleSubmit (userId assistantId : text) (net : FetchResult)
    (st : AppState) : Submission :=
  handleSubmit_of_render st userId assistantId net st.
End HandleSubmit.

(** The session states of the design, read off the way the call ended. *)
Inductive SessionState := Idle | Streaming | Completed | Failed | Cancelled.

Definition session_state (o : Outcome) : SessionState :=
  match o with
  | Ignored => Idle
  | Suspended => Streaming
  | Returned => Completed
  | Caught e => if is_AbortError e then Cancelled else Failed
  end.

(** ** Events

    What a frame means, as the interpreter of the design would report it;
    [processEvent] is shown below to act as [apply_event] on it. *)

Inductive SseEvent :=
| NoEvent
| Chunk (value : text)
| Done
| Raise (e : Thrown).

(** The exception thrown for an error event. *)
Definition error_of_content (content : option JsValue) : Thrown :=
  match content with
  | Some (JStr s) =>
      if bool_decide (s = []) then Error (utf16 "The assistant ran into an issue.")
      else Error s
  | Some v =>
      if ToBoolean v then Error_of_value v
      else Error (utf16 "The assistant ran into an issue.")
  | None => Error (utf16 "The assistant ran into an issue.")
  end.

Definition interpret_payload (payload : JsValue) : SseEvent :=
  match payload with
  | JNull => Raise (TypeError_null (utf16 "event"))
  | JObj fields =>
      match own_property (utf16 "event") fields with
      | Some (JStr kind) =>
          if bool_decide (kind = utf16 "chunk") then
            match own_property (utf16 "content") fields with
            | Some (JStr value) => Chunk value
            | _ => NoEvent
            end
          else if bool_decide (kind = utf16 "error") then
            Raise (error_of_content (own_property (utf16 "content") fields))
          else if bool_decide (kind = utf16 "done") then Done
          else NoEvent
      | _ => NoEvent
      end
  | _ => NoEvent
  end.

Definition interpret `{JSON : JsonRuntime} (frame : text) : SseEvent :=
  match find (startsWith (utf16 "data:")) (split [LF] frame) with
  | None | Some [] => NoEvent
  | Some dataLine =>
      match JSON_parse (strip_data_prefix dataLine) with
      | None => Raise (SyntaxError (strip_data_prefix dataLine))
      | Some payload => interpret_payload payload
      end
  end.

(** The effect of an event, given the callback for chunks. *)
Definition apply_event {S} (appendChunk : text -> M S unit) (ev : SseEvent)
  : M S bool :=
  match ev with
  | NoEvent => mret false
  | Chunk value => appendChunk value;; mret false
  | Done => mret true
  | Raise e => throw e
  end.

(** ** Observing a session

    The loop and [processEvent] touch the state only through the callbacks
    they are given, so the same code run with a callback that merely records
    its argument tells which frames are produced and which chunks are
    applied. *)

(** The handler that records each frame it is given and never signals the
    end. *)
Definition record_frame (frame : text) : M (list text) bool :=
  fun frames => (frames ++ [frame], inr false).

(** The reads of a complete stream: its delivery chunks, then the end. *)
Definition complete_stream (chunks : list (list byte)) : list ReadResult :=
  map (fun chunk => Resolved (Some chunk) false) chunks ++ [Resolved None true].

(** The frames the loop produces for a complete stream. *)
Definition frames `{Decoder : TextDecoder} (chunks : list (list byte))
  : list text :=
  fst (read_loop record_frame (complete_stream chunks) new_TextDecoder [] false
         []).

(** The frames the loop produces for the reads that have arrived, whether
    the stream has ended or not. *)
Definition frames_delivered `{Decoder : TextDecoder} (reads : list ReadResult)
  : list text :=
  fst (read_loop record_frame reads new_TextDecoder [] false []).

(** The handler that records each frame it is given and answers as the
    interpretation [ev] of the frame tells: it signals the end on a done
    event and throws on a raise. *)
Definition observe_frame (ev : text -> SseEvent) (frame : text)
  : M (list text) bool :=
  fun seen =>
    (seen ++ [frame],
     match ev frame with
     | Done => inr true
     | Raise e => inl e
     | NoEvent | Chunk _ => inr false
     end).

(** A frame that ends the session. *)
Definition terminal (ev : text -> SseEvent) (frame : text) : bool :=
  match ev frame with
  | Done | Raise _ => true
  | NoEvent | Chunk _ => false
  end.

(** The frames up to and including the first terminal one. *)
Fixpoint up_to_terminal (ev : text -> SseEvent) (l : list text) : list text :=
  match l with
  | [] => []
  | frame :: rest =>
      if terminal ev frame then [frame] else frame :: up_to_terminal ev rest
  end.

(** The contents of the chunk events among the given frames, in order. *)
Definition chunk_values (ev : text -> SseEvent) (l : list text) : list text :=
  omap (fun frame =>
          match ev frame with
          | Chunk value => Some value
          | _ => None
          end) l.

(** The [appendChunk] that records the values it is called with. *)
Definition record_chunk (value : text) : M (list text) unit :=
  modify (fun applied => applied ++ [value]).

(** The contents of the chunk events applied during a session, in order. *)
Definition chunks_applied `{JSON : JsonRuntime} `{Decoder : TextDecoder}
    (net : FetchResult) : list text :=
  fst (stream_response record_chunk net []).

(** [processEvent] with a callback that does nothing, wrapped so as to
    record the frames it is called with. *)
Definition watch_processEvent `{JSON : JsonRuntime} (frame : text)
  : M (list text) bool :=
  fun seen =>
    (seen ++ [frame], snd (processEvent frame (fun _ => mret tt) tt)).

(** The frames a session hands to [processEvent] on a complete stream. *)
Definition frames_processed `{JSON : JsonRuntime} `{Decoder : TextDecoder}
    (chunks : list (list byte)) : list text :=
  fst (read_loop watch_processEvent (complete_stream chunks)
         new_TextDecoder [] false []).

(** How the try block of a session ends. *)
Definition session_result `{JSON : JsonRuntime} `{Decoder : TextDecoder}
    (net : FetchResult) : Thrown + LoopExit :=
  snd (stream_response record_chunk net []).

(** ** The reassembler in the words of the design *)

Definition blank_line : text := [LF; LF].

(** On a chunk: split carry-over plus chunk on the delimiter; all segments
    but the last are frames, the last is the new carry-over. *)
Definition spec_on_chunk (carryover decoded : text) : list text * text :=
  let segments := split blank_line (carryover ++ decoded) in
  (take (length segments - 1) segments, List.last segments []).

Arguments spec_on_chunk : simpl never.

(** At the end: the carry-over is a frame when it has a character that is
    not white space. *)
Definition spec_on_end (carryover : text) : list text :=
  if existsb (fun c => negb (is_space c)) carryover then [carryover] else [].

(** The frames of a stream whose whole text is [t]. *)
Definition whole_stream_frames (t : text) : list text :=
  let '(complete, carryover) := spec_on_chunk [] t in
  complete ++ spec_on_end carryover.

(** The text a decoder gives for a complete byte stream read at once. *)
Definition decode_all `{Decoder : TextDecoder} (stream : list byte) : text :=
  snd (decode new_TextDecoder stream false).

(** Only white space. *)
Definition blank (s : text) : Prop := Forall (fun c => is_space c = true) s.

(** [sep] occurs in [s]. *)
Definition occurs (sep s : text) : Prop :=
  exists before after, s = before ++ sep ++ after.

(** ** A reference runtime

    Concrete instances of the two runtime services, used to run the model on
    concrete streams: a reader for the JSON grammar (ECMA-404) and the UTF-8
    decoder of the Encoding standard in replacement mode with byte-order-mark
    removal, as [new TextDecoder()] gives. *)

Module Reference.

Definition is_json_ws (c : char) : bool :=
  (c =? 32) || (c =? 9) || (c =? 10) || (c =? 13).

Fixpoint skip_ws (s : text) : text :=
  match s with
  | c :: s' => if is_json_ws c then skip_ws s' else s
  | [] => []
  end.

Definition is_digit (c : char) : bool := (48 <=? c) && (c <=? 57).

Definition hex_value (c : char) : option N :=
  if (48 <=? c) && (c <=? 57) then Some (c - 48)
  else if (65 <=? c) && (c <=? 70) then Some (c - 55)
  else if (97 <=? c) && (c <=? 102) then Some (c - 87)
  else None.

Definition hex4 (a b c d : char) : option N :=
  a ← hex_value a; b ← hex_value b; c ← hex_value c; d ← hex_value d;
  Some (((a * 16 + b) * 16 + c) * 16 + d).

(** The characters of a string literal after its opening quote, and the
    text after its closing quote. *)
Fixpoint string_body (s : text) : option (text * text) :=
  match s with
  | [] => None
  | 34 :: rest => Some ([], rest)
  | 92 :: 117 :: a :: b :: c :: d :: rest =>
      u ← hex4 a b c d;
      '(body, rest') ← string_body rest;
      Some (u :: body, rest')
  | 92 :: e :: rest =>
      c ← (if e =? 34 then Some 34 else if e =? 92 then Some 92
           else if e =? 47 then Some 47 else if e =? 98 then Some 8
           else if e =? 102 then Some 12 else if e =? 110 then Some 10
           else if e =? 114 then Some 13 else if e =? 116 then Some 9
           else None);
      '(body, rest') ← string_body rest;
      Some (c :: body, rest')
  | c :: rest =>
      if c <? 32 then None
      else '(body, rest') ← string_body rest; Some (c :: body, rest')
  end.

(** Leading decimal digits: their value, their number, the remaining text. *)
Fixpoint digits (s : text) (value : Z) (count : nat) : Z * nat * text :=
  match s with
  | c :: s' =>
      if is_digit c then digits s' (value * 10 + Z.of_N (c - 48))%Z (S count)
      else (value, count, s)
  | [] => (value, count, [])
  end.

Definition number (s : text) : option (JsValue * text) :=
  let '(negative, s) :=
    match s with 45 :: s' => (true, s') | _ => (false, s) end in
  let '(int_part, n_int, s1) := digits s 0%Z 0%nat in
  (* no empty integer part, no leading zero *)
  if (n_int =? 0)%nat then None
  else if (1 <? n_int)%nat && startsWith [48] s then None
  else
    frac ←
      match s1 with
      | 46 :: s2 =>
          let '(m, n_frac, s3) := digits s2 int_part 0%nat in
          if (n_frac =? 0)%nat then None else Some (m, n_frac, s3)
      | _ => Some (int_part, 0%nat, s1)
      end;
    let '(m, n_frac, s3) := frac in
    expo ←
      match s3 with
      | e :: s4 =>
          if (e =? 101) || (e =? 69) then
            let '(minus, s5) :=
              match s4 with
              | 45 :: s' => (true, s')
              | 43 :: s' => (false, s')
              | _ => (false, s4)
              end in
            let '(x, n_exp, s6) := digits s5 0%Z 0%nat in
            if (n_exp =? 0)%nat then None
            else Some (if minus : bool then (- x)%Z else x, s6)
          else Some (0%Z, s3)
      | [] => Some (0%Z, s3)
      end;
    let '(x, rest) := expo in
    Some (JNum (if negative : bool then (- m)%Z else m)
               (x - Z.of_nat n_frac)%Z, rest).

(** Defining a property: a repeated key keeps its place and takes the new
    value. *)
Fixpoint define_property (key : text) (v : JsValue)
    (fields : list (text * JsValue)) : list (text * JsValue) :=
  match fields with
  | [] => [(key, v)]
  | (k, w) :: rest =>
      if bool_decide (k = key) then (k, v) :: rest
      else (k, w) :: define_property key v rest
  end.

Fixpoint value (fuel : nat) (s : text) : option (JsValue * text) :=
  match fuel with
  | O => None
  | S fuel' =>
      match skip_ws s with
      | 123 :: rest =>
          match skip_ws rest with
          | 125 :: rest' => Some (JObj [], rest')
          | _ => members fuel' rest []
          end
      | 91 :: rest =>
          match skip_ws rest with
          | 93 :: rest' => Some (JArr [], rest')
          | _ => elements fuel' rest []
          end
      | 34 :: rest =>
          '(body, rest') ← string_body rest; Some (JStr body, rest')
      | s' =>
          if startsWith (utf16 "true") s' then Some (JBool true, drop 4 s')
          else if startsWith (utf16 "false") s'
               then Some (JBool false, drop 5 s')
          else if startsWith (utf16 "null") s' then Some (JNull, drop 4 s')
          else number s'
      end
  end
with elements (fuel : nat) (s : text) (acc : list JsValue)
  : option (JsValue * text) :=
  match fuel with
  | O => None
  | S fuel' =>
      '(v, rest) ← value fuel' s;
      match skip_ws rest with
      | 44 :: rest' => elements fuel' rest' (acc ++ [v])
      | 93 :: rest' => Some (JArr (acc ++ [v]), rest')
      | _ => None
      end
  end
with members (fuel : nat) (s : text) (acc : list (text * JsValue))
  : option (JsValue * text) :=
  match fuel with
  | O => None
  | S fuel' =>
      match skip_ws s with
      | 34 :: rest =>
          '(key, rest) ← string_body rest;
          match skip_ws rest with
          | 58 :: rest =>
              '(v, rest) ← value fuel' rest;
              match skip_ws rest with
              | 44 :: rest' => members fuel' rest' (define_property key v acc)
              | 125 :: rest' => Some (JObj (define_property key v acc), rest')
              | _ => None
              end
          | _ => None
          end
      | _ => None
      end
  end.

Definition parse (s : text) : option JsValue :=
  '(v, rest) ← value (2 * length s + 2) s;
  match skip_ws rest with
  | [] => Some v
  | _ :: _ => None
  end.

Definition json : JsonRuntime := {| JSON_parse := parse |}.

(** The UTF-8 decoder. *)
Record utf8_state := {
  code_point : N;
  bytes_seen : N;
  bytes_needed : N;
  lower_boundary : N;
  upper_boundary : N;
  BOM_seen : bool
}.

Definition utf8_new : utf8_state :=
  {| code_point := 0; bytes_seen := 0; bytes_needed := 0;
     lower_boundary := 128; upper_boundary := 191; BOM_seen := false |}.

Definition utf8_reset (bom : bool) : utf8_state :=
  {| code_point := 0; bytes_seen := 0; bytes_needed := 0;
     lower_boundary := 128; upper_boundary := 191; BOM_seen := bom |}.

Definition utf8_lead (cp needed lower upper : N) (bom : bool) : utf8_state :=
  {| code_point := cp; bytes_seen := 0; bytes_needed := needed;
     lower_boundary := lower; upper_boundary := upper; BOM_seen := bom |}.

(** A byte met when no continuation byte is awaited: the new state and the
    code points produced. *)
Definition utf8_first (bom : bool) (b : N) : utf8_state * list N :=
  if b <=? 127 then (utf8_reset bom, [b])
  else if (194 <=? b) && (b <=? 223)
       then (utf8_lead (N.land b 31) 1 128 191 bom, [])
  else if (224 <=? b) && (b <=? 239)
       then (utf8_lead (N.land b 15) 2
               (if b =? 224 then 160 else 128)
               (if b =? 237 then 159 else 191) bom, [])
  else if (240 <=? b) && (b <=? 244)
       then (utf8_lead (N.land b 7) 3
               (if b =? 240 then 144 else 128)
               (if b =? 244 then 143 else 191) bom, [])
  else (utf8_reset bom, [65533]).

Definition utf8_handler (d : utf8_state) (b : N) : utf8_state * list N :=
  if bytes_needed d =? 0 then utf8_first (BOM_seen d) b
  else if negb ((lower_boundary d <=? b) && (b <=? upper_boundary d)) then
    (* error, and the byte is put back and read again *)
    let '(d', out) := utf8_first (BOM_seen d) b in (d', 65533 :: out)
  else
    let cp := N.lor (N.shiftl (code_point d) 6) (N.land b 63) in
    if bytes_seen d + 1 =? bytes_needed d then (utf8_reset (BOM_seen d), [cp])
    else ({| code_point := cp; bytes_seen := bytes_seen d + 1;
             bytes_needed := bytes_needed d;
             lower_boundary := 128; upper_boundary := 191;
             BOM_seen := BOM_seen d |}, []).

(** Output of code points as code units, dropping a leading U+FEFF. *)
Definition code_units (cp : N) : text :=
  if cp <? 65536 then [cp]
  else [55296 + (cp - 65536) / 1024; 56320 + (cp - 65536) mod 1024].

Fixpoint serialize (bom : bool) (cps : list N) : bool * text :=
  match cps with
  | [] => (bom, [])
  | cp :: rest =>
      let '(bom', out) := serialize true rest in
      (bom', if negb bom && (cp =? 65279) then out else code_units cp ++ out)
  end.

Definition utf8_byte (d : utf8_state) (b : byte) : utf8_state * text :=
  let '(d', cps) := utf8_handler d (Byte.to_N b) in
  let '(bom, out) := serialize (BOM_seen d) cps in
  ({| code_point := code_point d'; bytes_seen := bytes_seen d';
      bytes_needed := bytes_needed d';
      lower_boundary := lower_boundary d';
      upper_boundary := upper_boundary d'; BOM_seen := bom |}, out).

Definition utf8_end (d : utf8_state) : text :=
  if bytes_needed d =? 0 then [] else [65533].

Definition utf8 : TextDecoder :=
  {| decoder := utf8_state; new_TextDecoder := utf8_new;
     decode_byte := utf8_byte; decode_end := utf8_end |}.

(** The UTF-8 bytes of an ASCII literal; an apostrophe stands for the
    double quote, and a vertical bar for a line feed. *)
Definition bytes (s : string) : list byte :=
  map (fun b => match b with
                | x27 => x22
                | x7c => x0a
                | b => b
                end)
      (list_byte_of_string s).

End Reference.

(** ** Running a session on the reference runtime *)

(** A component with the initial transcript and [input] typed in. *)
Definition fresh (input : text) : AppState :=
  {| messages := initialMessages; inputValue := input;
     isStreaming := false; errorMessage := None |}.

(** A first submission of [hi] with ids [u] and [a]. *)
Definition run (net : FetchResult) : Submission :=
  handleSubmit (JSON := Reference.json) (Decoder := Reference.utf8)
    (utf16 "u") (utf16 "a") net (fresh (utf16 "hi")).

(** The content of the assistant message of that submission. *)
Definition active (r : Submission) : option text :=
  content <$> messages (state r) !! 2%nat.

(** ** The exceptions the transport itself delivers *)

(** The exceptions with which the fetch or a read of [net] is rejected. *)
Definition rejections (net : FetchResult) : list Thrown :=
  match net with
  | FetchRejected e => [e]
  | Response _ (Some reads) =>
      omap (fun r => match r with
                     | Rejected e => Some e
                     | Resolved _ _ => None
                     end) reads
  | Response _ None => []
  end.

(** ** The theme of the component *)

Inductive Theme := light | dark.

Definition THEME_STORAGE_KEY : text := utf16 "chat-theme".

(** The string a theme is in the source. *)
Definition theme_string (theme : Theme) : text :=
  match theme with
  | light => utf16 "light"
  | dark => utf16 "dark"
  end.

(** What the theme code sees of [window] and [document]: the local storage,
    the answer of [matchMedia('(prefers-color-scheme: dark)')], and whether
    the root element has the class [dark]. *)
Record Window := {
  localStorage : gmap (list N) (list N);
  prefers_color_scheme_dark : bool;
  root_has_dark_class : bool
}.

(** [prefersDarkTheme], the initial value of the theme; [None] stands for
    [typeof window === 'undefined']. *)
Definition prefersDarkTheme (window : option Window) : Theme :=
  match window with
  | None => light
  | Some w =>
      let stored := localStorage w !! THEME_STORAGE_KEY in
      if bool_decide (stored = Some (utf16 "light")) then light
      else if bool_decide (stored = Some (utf16 "dark")) then dark
      else if prefers_color_scheme_dark w then dark else light
  end.

(** The effect run when the theme changes:
    [classList.toggle('dark', theme === 'dark')] and
    [localStorage.setItem(THEME_STORAGE_KEY, theme)]. *)
Definition theme_effect (theme : Theme) (w : Window) : Window :=
  {| localStorage := <[THEME_STORAGE_KEY := theme_string theme]> (localStorage w);
     prefers_color_scheme_dark := prefers_color_scheme_dark w;
     root_has_dark_class := match theme with dark => true | light => false end |}.

(** The updater of the theme button:
    [current => current === 'light' ? 'dark' : 'light']. *)
Definition toggle_theme (current : Theme) : Theme :=
  match current with light => dark | dark => light end.

(** ** The route of the service *)

(** [s.replace(/\/$/, '')]: a slash at the very end is removed. *)
Definition strip_final_slash (s : text) : text :=
  match last s with
  | Some 47 => removelast s
  | _ => s
  end.

(** [apiRoute]: [VITE_BACKEND_URL] is the value of the environment variable,
    [None] when it is not defined; [origin] is [window.location.origin],
    [None] when there is no window. *)
Definition apiRoute (VITE_BACKEND_URL origin : option text) : text :=
  let fallback :=
    match origin with
    | Some o => strip_final_slash o ++ utf16 "/api/chat"
    | None => utf16 "/api/chat"
    end in
  match VITE_BACKEND_URL with
  | Some url => if (length (trim url) =? 0)%nat then fallback else trim url
  | None => fallback
  end.

(** The [rewrite] of the development proxy:
    [path.replace(/^\/api\/chat/, '/api/chat')]. *)
Definition proxy_rewrite (path : text) : text :=
  if startsWith (utf16 "/api/chat") path
  then utf16 "/api/chat" ++ drop 9 path
  else path.

(** ** The form: what it shows and how it is operated *)

(** The parts of the rendered form that depend on the state: one bubble per
    message (key, text, side), and the disabled flags and label of the
    controls. *)
Record View := {
  bubbles : list (text * text * bool);
  textareaDisabled : bool;
  stopDisabled : bool;
  submitDisabled : bool;
  submitLabel : text
}.

Definition render (st : AppState) : View :=
  {| bubbles :=
       map (fun message =>
              (id message, content message,
               match role message with user => true | assistant => false end))
           (messages st);
     textareaDisabled := isStreaming st;
     stopDisabled := negb (isStreaming st);
     submitDisabled :=
       (length (trim (inputValue st)) =? 0)%nat || isStreaming st;
     submitLabel :=
       if isStreaming st then utf16 "Thinking..." else utf16 "Send" |}.

Record KeyboardEvent := { key : text; shiftKey : bool }.

Section Keyboard.
Context `{JSON : JsonRuntime} `{Decoder : TextDecoder}.

(** [handleKeyDown]: [None] when the handler does nothing; otherwise the
    default action of the key is prevented and [handleSubmit] is called. *)
Definition handleKeyDown (event : KeyboardEvent) (userId assistantId : text)
    (net : FetchResult) (st : AppState) : option Submission :=
  if bool_decide (key event = utf16 "Enter") && negb (shiftKey event)
  then Some (handleSubmit userId assistantId net st)
  else None.
End Keyboard.

(** ** normalizeMath *)

(** [s.replace(/pattern/g, replacement)] for a pattern that is a literal
    text and a replacement without special sequences. *)
Definition replaceAll (pattern replacement s : text) : text :=
  join replacement (split pattern s).

(** The line terminators of regular expressions. *)
Definition is_line_terminator (c : char) : bool :=
  (c =? 10) || (c =? 13) || (c =? 8232) || (c =? 8233).

(** The length of the longest prefix of white space. *)
Fixpoint white_run (s : text) : nat :=
  match s with
  | c :: s' => if is_space c then S (white_run s') else O
  | [] => O
  end.

(** The position of the last line terminator of a text. *)
Fixpoint last_terminator (w : text) : option nat :=
  match w with
  | [] => None
  | c :: w' =>
      match last_terminator w' with
      | Some i => Some (S i)
      | None => if is_line_terminator c then Some O else None
      end
  end.

(** How many characters the greedy [\s*] before the final [$] of
    [/^\s*\$\s*$/m] takes from [rest], the text after the dollar sign: all
    the white space when the text ends there, otherwise the white space up
    to the last line terminator in it; [None] when that assertion cannot
    hold. *)
Definition trailing_match (rest : text) : option nat :=
  let m := white_run rest in
  if (m =? length rest)%nat then Some m else last_terminator (take m rest).

(** The length of the match of [/^\s*\$\s*$/m] at the start of [s], which is
    taken to be at the start of a line. *)
Definition match_dollar_line (s : text) : option nat :=
  match drop (white_run s) s with
  | 36 :: rest => m ← trailing_match rest; Some (white_run s + 1 + m)%nat
  | _ => None
  end.

(** [s.replace(/^\s*\$\s*$/gm, '$$')], scanning from a position that is at
    the start of a line or not: each match is replaced by one dollar sign
    (in a replacement, two dollar signs stand for one). *)
Fixpoint replace_dollar_lines (fuel : nat) (line_start : bool) (s : text)
  : text :=
  match fuel, s with
  | S fuel', c :: s' =>
      match (if line_start then match_dollar_line s else None) with
      | Some n =>
          36 :: replace_dollar_lines fuel'
                  (is_line_terminator (List.last (take n s) 0)) (drop n s)
      | None => c :: replace_dollar_lines fuel' (is_line_terminator c) s'
      end
  | _, _ => s
  end.

(** [normalizeMath].  The replacement strings ['$$\n'], ['\n$$'] and ['$$']
    of the source denote a dollar sign and a line feed, a line feed and a
    dollar sign, and a dollar sign. *)
Definition normalizeMath (value : text) : text :=
  let withUnixLineEndings := replaceAll [13; 10] [10] value in
  let convertedDelimiters :=
    replaceAll [92; 41] [36]
      (replaceAll [92; 40] [36]
         (replaceAll [92; 93] [10; 36]
            (replaceAll [92; 91] [36; 10] withUnixLineEndings))) in
  replace_dollar_lines (length convertedDelimiters) true convertedDelimiters.

(** ** The renderer of code elements *)

(** The characters of the class [\w]. *)
Definition is_word (c : char) : bool :=
  (48 <=? c) && (c <=? 57) || (65 <=? c) && (c <=? 90)
  || (97 <=? c) && (c <=? 122) || (c =? 95).

(** The length of the longest prefix of word characters. *)
Fixpoint word_run (s : text) : nat :=
  match s with
  | c :: s' => if is_word c then S (word_run s') else O
  | [] => O
  end.

(** The group captured by [/language-(\w+)/.exec(className)]: the word that
    follows the leftmost [language-] that is followed by a word
    character. *)
Fixpoint language_of (className : text) : option text :=
  match className with
  | [] => None
  | _ :: rest =>
      if startsWith (utf16 "language-") className
         && (0 <? word_run (drop 9 className))%nat
      then Some (take (word_run (drop 9 className)) (drop 9 className))
      else language_of rest
  end.

(** What the renderer makes of a code element: a highlighter with a language
    and a source, or a plain [code] element. *)
Inductive CodeElement :=
| Highlighter (language source : text)
| PlainCode.

(** [code]: [inline] and [className] may be absent; [children] stands for
    the text [String(children)].  The source given to the highlighter is
    [String(children).replace(/\n$/, '')]. *)
Definition code (inline : option bool) (className : option text)
    (children : text) : CodeElement :=
  match language_of (default [] className) with
  | Some language =>
      if negb (default false inline)
      then Highlighter language
             (match last children with
              | Some 10 => removelast children
              | _ => children
              end)
      else PlainCode
  | None => PlainCode
  end.

(** * Properties *)

(** ** Strings: prefixes, leftmost occurrence, split and join *)

Section TextFacts.
Implicit Types (sep s p a b : text).

Lemma startsWith_app p r : startsWith p (p ++ r) = true.
Proof.
  induction p as [|c p IH]; simpl; [done|].
  by rewrite N.eqb_refl, IH.
Qed.

Lemma startsWith_true p s :
  startsWith p s = true -> s = p ++ drop (length p) s.
Proof.
  revert s. induction p as [|c p IH]; intros [|d s]; simpl; try done.
  intros [Hc Hp]%andb_prop. apply N.eqb_eq in Hc as ->.
  f_equal. by apply IH.
Qed.

Lemma startsWith_weaken p a b :
  startsWith p (a ++ b) = true -> (length p <= length a)%nat ->
  startsWith p a = true.
Proof.
  revert a. induction p as [|c p IH]; intros [|d a]; simpl; try done.
  - lia.
  - intros [Hc Hp]%andb_prop Hlen. rewrite Hc. simpl.
    apply IH; [done | lia].
Qed.

Lemma startsWith_extend p a b :
  startsWith p a = true -> startsWith p (a ++ b) = true.
Proof.
  intros Hp. rewrite (startsWith_true _ _ Hp), <- app_assoc.
  apply startsWith_app.
Qed.

Lemma find_first_Some sep s before after :
  find_first sep s = Some (before, after) -> s = before ++ sep ++ after.
Proof.
  revert before after. induction s as [|c s IH]; intros before after.
  - simpl. destruct (startsWith sep []) eqn:Hp; [|done].
    intros [= <- <-]. by apply startsWith_true in Hp.
  - cbn [find_first]. destruct (startsWith sep (c :: s)) eqn:Hp.
    + intros [= <- <-]. by apply startsWith_true in Hp.
    + destruct (find_first sep s) as [[x y]|]; [|done].
      intros [= <- <-]. simpl. f_equal. by apply IH.
Qed.

Lemma find_first_shorter sep s before after :
  sep <> [] -> find_first sep s = Some (before, after) ->
  (length after < length s)%nat.
Proof.
  intros Hsep ->%find_first_Some. rewrite !length_app.
  destruct sep; [done|]. simpl. lia.
Qed.

(** The leftmost occurrence within a prefix is the leftmost occurrence in
    the whole. *)
Lemma find_first_app sep a b before after :
  find_first sep a = Some (before, after) ->
  find_first sep (a ++ b) = Some (before, after ++ b).
Proof.
  revert before after. induction a as [|c a IH]; intros before after.
  - simpl. destruct (startsWith sep []) eqn:Hp; [|done].
    intros [= <- <-]. destruct sep; [|done]. by destruct b.
  - cbn [find_first]. destruct (startsWith sep (c :: a)) eqn:Hp.
    + intros [= <- <-]. change ((c :: a) ++ b) with (c :: a ++ b) in *.
      cbn [find_first].
      change (c :: a ++ b) with ((c :: a) ++ b).
      rewrite (startsWith_extend _ _ b Hp).
      f_equal. f_equal. rewrite drop_app_le; [done|].
      pose proof (f_equal length (startsWith_true _ _ Hp)) as Hl.
      rewrite length_app in Hl. lia.
    + destruct (find_first sep a) as [[x y]|] eqn:Hf; [|done].
      intros [= <- <-].
      change ((c :: a) ++ b) with (c :: a ++ b). cbn [find_first].
      destruct (startsWith sep (c :: a ++ b)) eqn:Hp'.
      * exfalso. apply find_first_Some in Hf.
        change (c :: a ++ b) with ((c :: a) ++ b) in Hp'.
        apply startsWith_weaken in Hp'; [congruence|].
        rewrite Hf. simpl. rewrite !length_app. lia.
      * by rewrite (IH _ _ eq_refl).
Qed.

Lemma find_first_nil sep : sep <> [] -> find_first sep [] = None.
Proof. by destruct sep. Qed.

Lemma split_from_fuel sep fuel1 fuel2 s :
  sep <> [] -> (length s <= fuel1)%nat -> (length s <= fuel2)%nat ->
  split_from fuel1 sep s = split_from fuel2 sep s.
Proof.
  intros Hsep. revert fuel2 s.
  induction fuel1 as [|fuel1 IH]; intros [|fuel2] s H1 H2; simpl; try done.
  - destruct s; [|simpl in *; lia]. by rewrite find_first_nil.
  - destruct s; [|simpl in *; lia]. by rewrite find_first_nil.
  - destruct (find_first sep s) as [[x y]|] eqn:Hf; [|done].
    pose proof (find_first_shorter _ _ _ _ Hsep Hf).
    f_equal. apply IH; lia.
Qed.

(** The defining equation of [split] for a separator that is not empty. *)
Lemma split_unfold sep s :
  sep <> [] ->
  split sep s =
    match find_first sep s with
    | Some (before, after) => before :: split sep after
    | None => [s]
    end.
Proof.
  intros Hsep. unfold split. destruct sep as [|c sep]; [done|].
  destruct s as [|d s].
  - by rewrite find_first_nil.
  - cbn [length split_from].
    destruct (find_first (c :: sep) (d :: s)) as [[x y]|] eqn:Hf; [|done].
    pose proof (find_first_shorter _ _ _ _ Hsep Hf) as Hlt.
    f_equal. apply split_from_fuel; [done| |done]. simpl in Hlt. lia.
Qed.

Lemma split_not_nil sep s : sep <> [] -> split sep s <> [].
Proof.
  intros Hsep. rewrite split_unfold by done.
  by destruct (find_first sep s) as [[x y]|].
Qed.

Lemma removelast_cons_ne {A} (x : A) (l : list A) :
  l <> [] -> removelast (x :: l) = x :: removelast l.
Proof. by destruct l. Qed.

Lemma last_cons_ne {A} (x : A) (l : list A) :
  l <> [] -> last (x :: l) = last l.
Proof. by destruct l. Qed.

(** Splitting a text that arrives in two parts: the complete segments of
    the first part stay as they are, and the split goes on from its last
    segment. *)
Lemma split_app sep a b :
  sep <> [] ->
  split sep (a ++ b) =
    removelast (split sep a)
    ++ split sep (default [] (last (split sep a)) ++ b).
Proof.
  intros Hsep. remember (length a) as n eqn:Hn. revert a Hn.
  induction n as [n IH] using lt_wf_ind. intros a ->.
  rewrite (split_unfold sep a) by done.
  destruct (find_first sep a) as [[x y]|] eqn:Hf; [|done].
  rewrite (split_unfold sep (a ++ b)) by done.
  rewrite (find_first_app _ _ b _ _ Hf).
  pose proof (find_first_shorter _ _ _ _ Hsep Hf) as Hlt.
  pose proof (split_not_nil sep y Hsep) as Hne.
  rewrite removelast_cons_ne, last_cons_ne by done.
  simpl. f_equal. by apply (IH (length y)).
Qed.

Lemma join_cons_ne sep x l :
  l <> [] -> join sep (x :: l) = x ++ sep ++ join sep l.
Proof. by destruct l. Qed.

(** Joining the segments with the separator gives the text back. *)
Lemma join_split sep s : sep <> [] -> join sep (split sep s) = s.
Proof.
  intros Hsep. remember (length s) as n eqn:Hn. revert s Hn.
  induction n as [n IH] using lt_wf_ind. intros s ->.
  rewrite split_unfold by done.
  destruct (find_first sep s) as [[x y]|] eqn:Hf; [|done].
  rewrite join_cons_ne by by apply split_not_nil.
  rewrite (IH (length y)); [|by eapply find_first_shorter|done].
  symmetry. by apply find_first_Some.
Qed.

Lemma find_first_None sep s : find_first sep s = None -> ~ occurs sep s.
Proof.
  intros Hf (x & y & ->). revert Hf. induction x as [|c x IH].
  - simpl. destruct (sep ++ y) eqn:E; cbn [find_first]; rewrite <- ?E.
    + by rewrite startsWith_app.
    + by rewrite startsWith_app.
  - change ((c :: x) ++ sep ++ y) with (c :: (x ++ sep ++ y)).
    cbn [find_first]. destruct (startsWith sep _); [done|].
    destruct (find_first sep (x ++ sep ++ y)) as [[? ?]|]; [done|].
    intros _. by apply IH.
Qed.

(** The text before the leftmost occurrence holds no occurrence. *)
Lemma find_first_before sep s before after :
  sep <> [] -> find_first sep s = Some (before, after) ->
  ~ occurs sep before.
Proof.
  intros Hsep. revert before after.
  induction s as [|c s IH]; intros before after.
  - simpl. destruct (startsWith sep []); [|done].
    intros [= <- <-] (x & y & Hxy). destruct x, sep; done.
  - cbn [find_first]. destruct (startsWith sep (c :: s)) eqn:Hp.
    + intros [= <- <-] (x & y & Hxy). destruct x, sep; done.
    + destruct (find_first sep s) as [[x y]|] eqn:Hf; [|done].
      intros [= <- <-] (u & v & Huv).
      destruct u as [|d u].
      * simpl in Huv. apply find_first_Some in Hf.
        assert (c :: s = sep ++ (v ++ sep ++ y)) as E.
        { subst s. change (c :: x ++ sep ++ y) with ((c :: x) ++ sep ++ y).
          by rewrite Huv, <- app_assoc. }
        by rewrite E, startsWith_app in Hp.
      * injection Huv as -> ->. apply (IH _ _ eq_refl). by exists u, v.
Qed.

(** No segment of a split holds the separator. *)
Lemma split_segments_free sep s segment :
  sep <> [] -> segment ∈ split sep s -> ~ occurs sep segment.
Proof.
  intros Hsep. remember (length s) as n eqn:Hn. revert s Hn.
  induction n as [n IH] using lt_wf_ind. intros s ->.
  rewrite split_unfold by done.
  destruct (find_first sep s) as [[x y]|] eqn:Hf.
  - intros [->|Hin]%elem_of_cons.
    + by eapply find_first_before.
    + eapply (IH (length y)); [by eapply find_first_shorter|done|done].
  - intros ->%list_elem_of_singleton. by apply find_first_None.
Qed.
End TextFacts.

(** ** Trimming *)

Section TrimFacts.
Implicit Types (s : text).

Lemma trimStart_split s :
  exists ws, s = ws ++ trimStart s /\ blank ws.
Proof.
  induction s as [|c s (ws & E & Hws)]; simpl.
  - exists []. split; [done|constructor].
  - destruct (is_space c) eqn:Hc.
    + exists (c :: ws). split; [by rewrite E at 1|by constructor].
    + exists []. split; [done|constructor].
Qed.

Lemma trimStart_head s c rest :
  trimStart s = c :: rest -> is_space c = false.
Proof.
  induction s as [|d s IH]; simpl; [done|].
  destruct (is_space d) eqn:Hd; [done|]. by intros [= <- _].
Qed.

Lemma trimStart_nil s : trimStart s = [] <-> blank s.
Proof.
  induction s as [|c s IH]; simpl.
  - split; [constructor|done].
  - destruct (is_space c) eqn:Hc.
    + rewrite IH. split; [by constructor|by inversion 1].
    + split; [done|]. inversion 1; congruence.
Qed.

Lemma blank_rev s : blank (rev s) <-> blank s.
Proof.
  unfold blank. split; intros Hb.
  - rewrite <- (rev_involutive s). by apply List.Forall_rev.
  - by apply List.Forall_rev.
Qed.

Lemma trimEnd_split s :
  exists ws, s = trimEnd s ++ ws /\ blank ws.
Proof.
  destruct (trimStart_split (rev s)) as (ws & E & Hws).
  exists (rev ws). split; [|by apply blank_rev].
  unfold trimEnd. by rewrite <- rev_app_distr, <- E, rev_involutive.
Qed.

Lemma trimEnd_last s c front :
  trimEnd s = front ++ [c] -> is_space c = false.
Proof.
  unfold trimEnd. intros E. apply (f_equal (@rev N)) in E.
  rewrite rev_involutive, rev_app_distr in E. simpl in E.
  by eapply trimStart_head.
Qed.

Lemma trimEnd_nil s : trimEnd s = [] <-> blank s.
Proof.
  unfold trimEnd. rewrite <- blank_rev, <- trimStart_nil.
  split; [|by intros ->].
  intros E. apply (f_equal (@rev N)) in E. by rewrite rev_involutive in E.
Qed.

(** [trim] removes a blank prefix and a blank suffix, and what is left
    neither starts nor ends with white space. *)
Lemma trim_split s :
  exists leading trailing,
    s = leading ++ trim s ++ trailing /\ blank leading /\ blank trailing.
Proof.
  destruct (trimStart_split s) as (l & El & Hl).
  destruct (trimEnd_split (trimStart s)) as (t & Et & Ht).
  exists l, t. unfold trim. by rewrite <- Et.
Qed.

Lemma trim_head s c rest : trim s = c :: rest -> is_space c = false.
Proof.
  unfold trim. intros E.
  destruct (trimEnd_split (trimStart s)) as (t & Et & _).
  rewrite E in Et. simpl in Et. by eapply trimStart_head.
Qed.

Lemma trim_last s c front : trim s = front ++ [c] -> is_space c = false.
Proof. apply trimEnd_last. Qed.

Lemma trim_nil s : trim s = [] <-> blank s.
Proof.
  unfold trim. rewrite trimEnd_nil. split.
  - intros Hb. destruct (trimStart s) as [|c r] eqn:E.
    + by apply trimStart_nil.
    + apply trimStart_head in E. inversion Hb; congruence.
  - intros Hb. apply trimStart_nil in Hb. rewrite Hb. constructor.
Qed.

(** The test [s.trim().length > 0] asks for a character that is not white
    space. *)
Lemma trim_length_test s :
  negb (length (trim s) =? 0)%nat = existsb (fun c => negb (is_space c)) s.
Proof.
  destruct (existsb _ s) eqn:Hex.
  - apply existsb_exists in Hex as (c & Hin & Hc).
    destruct (trim s) eqn:E; [|done].
    apply trim_nil in E. unfold blank in E. rewrite List.Forall_forall in E.
    apply E in Hin. by rewrite Hin in Hc.
  - assert (blank s) as Hb.
    { unfold blank. apply List.Forall_forall. intros c Hin.
      destruct (is_space c) eqn:Hc; [done|].
      assert (existsb (fun c => negb (is_space c)) s = true); [|congruence].
      apply existsb_exists. exists c. by rewrite Hc. }
    apply trim_nil in Hb. by rewrite Hb.
Qed.
End TrimFacts.

(** ** The decoder and the loop as a reassembler *)

Section Reassembler.
Context `{Decoder : TextDecoder}.

Lemma decode_bytes_app d a b :
  decode_bytes d (a ++ b) =
    let '(d1, t1) := decode_bytes d a in
    let '(d2, t2) := decode_bytes d1 b in
    (d2, t1 ++ t2).
Proof.
  revert d. induction a as [|x a IH]; intros d; simpl.
  - by destruct (decode_bytes d b).
  - destruct (decode_byte d x) as [d1 t1]. rewrite IH.
    destruct (decode_bytes d1 a) as [d2 t2].
    destruct (decode_bytes d2 b) as [d3 t3]. by rewrite app_assoc.
Qed.

Lemma removelast_take {A} (l : list A) :
  removelast l = take (length l - 1) l.
Proof.
  induction l as [|x [|y l] IH]; try done.
  change (removelast (x :: y :: l)) with (x :: removelast (y :: l)).
  rewrite IH. simpl. by rewrite Nat.sub_0_r.
Qed.

Lemma last_default {A} (l : list A) (d : A) :
  default d (last l) = List.last l d.
Proof. induction l as [|x [|y l] IH]; done. Qed.

Lemma pop_spec_on_chunk carryover decoded :
  pop (split [LF; LF] (carryover ++ decoded)) =
    ((spec_on_chunk carryover decoded).1,
     Some (spec_on_chunk carryover decoded).2).
Proof.
  unfold pop, spec_on_chunk, blank_line. cbn [fst snd].
  rewrite removelast_take, <- (last_default _ []). f_equal.
  destruct (last _) eqn:E; [done|].
  apply last_None in E. by apply split_not_nil in E.
Qed.

Lemma for_segments_record segments doneSignal log :
  for_segments record_frame segments doneSignal log =
    (log ++ segments, inr doneSignal).
Proof.
  revert log. induction segments as [|x l IH]; intros log; simpl.
  - by rewrite app_nil_r.
  - unfold mbind, M_bind, record_frame. rewrite IH.
    by rewrite <- app_assoc.
Qed.

Lemma spec_on_chunk_eq carryover decoded :
  spec_on_chunk carryover decoded =
    (removelast (split [LF; LF] (carryover ++ decoded)),
     default [] (last (split [LF; LF] (carryover ++ decoded)))).
Proof.
  unfold spec_on_chunk, blank_line.
  by rewrite removelast_take, <- (last_default _ []).
Qed.

(** One iteration on a delivered chunk, with the recording handler. *)
Lemma read_loop_record_chunk value reads d buffer log :
  read_loop record_frame (Resolved (Some value) false :: reads) d buffer
    false log =
  read_loop record_frame reads (decode_bytes d value).1
    (spec_on_chunk buffer (decode_bytes d value).2).2 false
    (log ++ (spec_on_chunk buffer (decode_bytes d value).2).1).
Proof.
  cbn [read_loop negb]. change (default [] (Some value)) with value.
  unfold decode. destruct (decode_bytes d value) as [d1 t1]. cbn [fst snd].
  rewrite pop_spec_on_chunk. change (default [] (Some ?x)) with x.
  unfold mbind at 1, M_bind at 1. by rewrite for_segments_record.
Qed.

(** The last iteration, on the end of the stream. *)
Lemma read_loop_record_end value reads d buffer log :
  read_loop record_frame (Resolved value true :: reads) d buffer false log =
  let decoded := (decode d (default [] value) false).2 in
  (log ++ (spec_on_chunk buffer decoded).1
       ++ spec_on_end (spec_on_chunk buffer decoded).2,
   inr (Finished [])).
Proof.
  cbn [read_loop negb].
  destruct (decode d (default [] value) false) as [d1 t1]. cbn [fst snd].
  rewrite pop_spec_on_chunk. change (default [] (Some ?x)) with x.
  unfold mbind at 1, M_bind at 1. rewrite for_segments_record.
  rewrite trim_length_test. unfold spec_on_end.
  destruct (existsb _ _); unfold mbind, M_bind, record_frame, mret, M_ret.
  - by rewrite <- app_assoc.
  - by rewrite !app_nil_r.
Qed.

Lemma whole_stream_frames_eq a b :
  whole_stream_frames (a ++ b) =
    (spec_on_chunk a b).1 ++ spec_on_end (spec_on_chunk a b).2.
Proof.
  unfold whole_stream_frames.
  change (spec_on_chunk [] (a ++ b)) with (spec_on_chunk a b).
  by destruct (spec_on_chunk a b).
Qed.

Lemma whole_stream_frames_app a b :
  whole_stream_frames (a ++ b) =
    (spec_on_chunk [] a).1
    ++ whole_stream_frames ((spec_on_chunk [] a).2 ++ b).
Proof.
  unfold whole_stream_frames. rewrite !spec_on_chunk_eq. cbn [fst snd app].
  rewrite (split_app [LF; LF] a b) by done.
  set (X := removelast (split [LF; LF] a)).
  set (Y := split [LF; LF] (default [] (last (split [LF; LF] a)) ++ b)).
  assert (Y <> []) as HY by by apply split_not_nil.
  rewrite removelast_app by done. rewrite last_app.
  destruct (last Y) eqn:E; [by rewrite <- app_assoc|].
  by apply last_None in E.
Qed.

(** The loop with the recording handler, on a complete stream. *)
Lemma read_loop_record_complete chunks d buffer log :
  read_loop record_frame (complete_stream chunks) d buffer false log =
  (log ++ whole_stream_frames
            (buffer ++ (decode d (concat chunks) false).2),
   inr (Finished [])).
Proof.
  revert d buffer log. induction chunks as [|c chunks IH]; intros d buffer log.
  - unfold complete_stream. cbn [map app concat].
    rewrite read_loop_record_end. cbn [default]. cbn zeta.
    unfold whole_stream_frames.
    rewrite !spec_on_chunk_eq. by cbn [fst snd app].
  - unfold complete_stream. cbn [map app concat].
    rewrite read_loop_record_chunk. fold (complete_stream chunks).
    rewrite IH. f_equal. rewrite <- app_assoc. f_equal.
    unfold decode. rewrite decode_bytes_app.
    destruct (decode_bytes d c) as [d1 t1]. cbn [fst snd].
    destruct (decode_bytes d1 (concat chunks)) as [d2 t2]. cbn [fst snd].
    replace (buffer ++ (t1 ++ t2) ++ decode_end d2)
      with ((buffer ++ t1) ++ t2 ++ decode_end d2)
      by by rewrite <- !app_assoc.
    rewrite (whole_stream_frames_app (buffer ++ t1)).
    by rewrite !spec_on_chunk_eq.
Qed.

Lemma frames_whole chunks :
  frames chunks = whole_stream_frames (decode_all (concat chunks)).
Proof.
  unfold frames, decode_all. by rewrite read_loop_record_complete.
Qed.
End Reassembler.

(** ** The interpreter *)

Section Interpreter.
Context `{JSON : JsonRuntime} {S : Type}.

(** [processEvent] does what [interpret] reports: at most one call of the
    callback, with the content of a chunk event. *)
Lemma processEvent_interpret frame (appendChunk : text -> M S unit) st :
  processEvent frame appendChunk st =
    apply_event appendChunk (interpret frame) st.
Proof.
  unfold processEvent, interpret.
  destruct (find _ _) as [[|c dataLine]|]; [done| |done].
  destruct (JSON_parse _) as [payload|]; [|done].
  unfold try_catch, mbind, M_bind, mret, M_ret, throw.
  destruct payload as [|b|m e|s|items|fields]; try done.
  cbn [Get interpret_payload]. unfold mret, M_ret.
  destruct (own_property (utf16 "event") fields) as [[|b|m e|kind|items|fs]|];
    try done.
  cbn [strict_eq_string].
  destruct (decide (kind = utf16 "chunk")) as [->|Hchunk].
  { change (bool_decide (utf16 "chunk" = utf16 "chunk")) with true.
    change (bool_decide (utf16 "chunk" = utf16 "error")) with false.
    change (bool_decide (utf16 "chunk" = utf16 "done")) with false.
    cbn iota.
    destruct (own_property (utf16 "content") fields)
      as [[|b|m e|chunk|items|fs]|]; try done.
    cbn [typeof_string apply_event]. unfold mbind, M_bind, mret, M_ret.
    by destruct (appendChunk chunk st) as [st' [err|[]]]. }
  rewrite (bool_decide_eq_false_2 _ Hchunk). cbn iota.
  destruct (bool_decide (kind = utf16 "error")) eqn:Herror.
  { unfold throw_Error_or, error_of_content, throw.
    destruct (own_property (utf16 "content") fields)
      as [[|b|m e|chunk|items|fs]|]; cbn; try done.
    - by destruct b.
    - by destruct (rounds_to_zero m e).
    - by destruct (bool_decide (chunk = [])). }
  by destruct (bool_decide (kind = utf16 "done")).
Qed.
End Interpreter.

(** ** Two runs of the same code with different callbacks *)

Section HandlerSimulation.
Context `{Decoder : TextDecoder} {S T : Type}.
Variables (h1 : text -> M S bool) (h2 : text -> M T bool).
Variable R : S -> T -> Prop.

(** Two results agree: related states, same value or exception. *)
Local Abbreviation agree x y := (R (fst x) (fst y) /\ snd x = snd y).

Hypothesis handlers_agree :
  forall frame s t, R s t -> agree (h1 frame s) (h2 frame t).

Lemma for_segments_agree segments doneSignal s t :
  R s t ->
  agree (for_segments h1 segments doneSignal s)
        (for_segments h2 segments doneSignal t).
Proof.
  revert doneSignal s t.
  induction segments as [|x l IH]; intros doneSignal s t HR; [done|].
  cbn [for_segments]. unfold mbind, M_bind.
  destruct (handlers_agree x s t HR) as [HR' E].
  destruct (h1 x s) as [s' r], (h2 x t) as [t' r'].
  simpl in HR', E. subst r'. destruct r as [e|b]; [done|].
  by apply IH.
Qed.

Lemma read_loop_agree reads d buffer doneSignal s t :
  R s t ->
  agree (read_loop h1 reads d buffer doneSignal s)
        (read_loop h2 reads d buffer doneSignal t).
Proof.
  revert d buffer doneSignal s t.
  induction reads as [|r reads IH]; intros d buffer doneSignal s t HR.
  - by destruct doneSignal.
  - cbn [read_loop]. destruct doneSignal; [done|].
    destruct r as [value fin|e]; [|done].
    destruct (decode d (default [] value) (negb fin)) as [d1 decoded].
    destruct (pop (split [LF; LF] (buffer ++ decoded))) as [segments popped].
    unfold mbind, M_bind.
    destruct (for_segments_agree segments false s t HR) as [HR' E].
    destruct (for_segments h1 segments false s) as [s' r],
             (for_segments h2 segments false t) as [t' r'].
    simpl in HR', E. subst r'. destruct r as [e|b]; [done|].
    destruct fin; [|by apply IH].
    destruct (negb _); [|done].
    destruct (handlers_agree (default [] popped) s' t' HR') as [HR2 E].
    destruct (h1 _ s') as [s2 r], (h2 _ t') as [t2 r'].
    simpl in HR2, E. subst r'. by destruct r.
Qed.
End HandlerSimulation.

Section Resume.
Context `{Decoder : TextDecoder} {S : Type}.
Variable h : text -> M S bool.

Lemma read_loop_flagged reads d buffer st :
  read_loop h reads d buffer true st = (st, inr (Finished buffer)).
Proof. by destruct reads. Qed.

(** A suspended loop goes on with the reads that arrive next, from the local
    variables and the state it was suspended with. *)
Lemma read_loop_resume reads extra d buffer s s' buffer' d' :
  read_loop h reads d buffer false s = (s', inr (Awaiting buffer' d')) ->
  read_loop h (reads ++ extra) d buffer false s
  = read_loop h extra d' buffer' false s'.
Proof.
  revert d buffer s.
  induction reads as [|r reads IH]; intros d buffer s.
  - cbn [read_loop app]. unfold mret, M_ret. by intros [= -> -> ->].
  - cbn [read_loop app]. destruct r as [value fin|e]; [|done].
    destruct (decode d (default [] value) (negb fin)) as [d1 decoded].
    destruct (pop (split [LF; LF] (buffer ++ decoded))) as [segments popped].
    unfold mbind, M_bind.
    destruct (for_segments h segments false s) as [s1 [e|b]]; [done|].
    destruct fin.
    + destruct (negb _); [|done].
      by destruct (h (default [] popped) s1) as [s2 [e|b']].
    + destruct b; [by rewrite read_loop_flagged|]. apply IH.
Qed.
End Resume.

Section Simulation.
Context `{JSON : JsonRuntime} `{Decoder : TextDecoder} {S T : Type}.
Variables (f : text -> M S unit) (g : text -> M T unit).
Variable R : S -> T -> Prop.

Local Abbreviation agree x y := (R (fst x) (fst y) /\ snd x = snd y).

Hypothesis callbacks_agree :
  forall value s t, R s t -> agree (f value s) (g value t).
Hypothesis callbacks_return :
  forall value s, (f value s).2 = inr tt.

Lemma processEvent_agree frame s t :
  R s t -> agree (processEvent frame f s) (processEvent frame g t).
Proof.
  intros HR. rewrite !processEvent_interpret.
  destruct (interpret frame) as [| value | |e]; try done.
  cbn [apply_event]. unfold mbind, M_bind.
  destruct (callbacks_agree value s t HR) as [HR' E].
  pose proof (callbacks_return value s) as Hret.
  destruct (f value s) as [s' r], (g value t) as [t' r'].
  simpl in HR', E, Hret. by subst r r'.
Qed.

Lemma stream_response_agree net s t :
  R s t -> agree (stream_response f net s) (stream_response g net t).
Proof.
  intros HR. destruct net as [e|ok body]; [done|]. cbn [stream_response].
  destruct (if ok then body else None); [|done].
  apply (read_loop_agree _ _ R); [|done].
  intros frame s' t'. apply processEvent_agree.
Qed.
End Simulation.

(** ** Sessions *)

Section Sessions.
Context `{JSON : JsonRuntime} `{Decoder : TextDecoder}.

Lemma append_to_nil target current : append_to target [] current = current.
Proof.
  unfold append_to. induction current as [|m l IH]; [done|].
  cbn [map]. rewrite IH. f_equal.
  destruct (bool_decide _); [|done]. destruct m. by rewrite app_nil_r.
Qed.

Lemma append_to_append target v1 v2 current :
  append_to target v2 (append_to target v1 current) =
    append_to target (v1 ++ v2) current.
Proof.
  unfold append_to. rewrite map_map. apply map_ext. intros m.
  destruct (bool_decide (id m = target)) eqn:E; cbn [id content].
  - rewrite E. by rewrite app_assoc.
  - by rewrite E.
Qed.

(** The transcript during a session is the transcript at its start with
    the recorded chunks appended to the messages carrying the assistant
    id; nothing else of the state changes inside the try block. *)
Lemma stream_response_state target net st :
  stream_response
    (fun value => modify (setMessages (append_to target value))) net st =
  (setMessages (append_to target (concat (chunks_applied net))) st,
   session_result net).
Proof.
  unfold chunks_applied, session_result.
  pose proof (stream_response_agree
    (fun value => modify (setMessages (append_to target value)))
    record_chunk
    (fun s applied => s = setMessages (append_to target (concat applied)) st))
    as Hsim.
  cbv beta in Hsim. destruct (fun H1 H2 H3 => Hsim H1 H2 net st [] H3)
    as [E1 E2].
  - intros value s applied ->. split; [|done].
    unfold record_chunk, modify, setMessages.
    cbn [fst messages inputValue isStreaming errorMessage]. f_equal.
    rewrite append_to_append, concat_app. cbn [concat].
    by rewrite app_nil_r.
  - done.
  - unfold setMessages. destruct st.
    cbn [concat messages inputValue isStreaming errorMessage]. f_equal.
    by rewrite append_to_nil.
  - destruct (stream_response _ net st) as [s r]. cbn in E1, E2. by subst.
Qed.

Lemma guard_passes st :
  trim (inputValue st) <> [] -> isStreaming st = false ->
  (length (trim (inputValue st)) =? 0)%nat || isStreaming st = false.
Proof. intros Hin ->. by destruct (trim (inputValue st)). Qed.

(** An accepted submission, in closed form. *)
Lemma handleSubmit_accepted userId assistantId net st :
  trim (inputValue st) <> [] -> isStreaming st = false ->
  handleSubmit userId assistantId net st =
    let userMessage := new_user_message userId (trim (inputValue st)) in
    let transcript :=
      append_to assistantId (concat (chunks_applied net))
        (messages st ++ [userMessage; new_assistant_message assistantId]) in
    let payload := Some (request_messages (messages st) userMessage) in
    match session_result net with
    | inr (Awaiting _ _) =>
        {| state := {| messages := transcript; inputValue := [];
                       isStreaming := true; errorMessage := None |};
           request := payload; outcome := Suspended |}
    | inr (Finished _) =>
        {| state := {| messages := transcript; inputValue := [];
                       isStreaming := false; errorMessage := None |};
           request := payload; outcome := Returned |}
    | inl e =>
        {| state := {| messages := transcript; inputValue := [];
                       isStreaming := false;
                       errorMessage :=
                         Some (if is_AbortError e
                               then Literal (utf16 "Generation cancelled.")
                               else message e) |};
           request := payload; outcome := Caught e |}
    end.
Proof.
  intros Hin Hidle. unfold handleSubmit, handleSubmit_of_render.
  rewrite (guard_passes st Hin Hidle).
  change (id (new_assistant_message assistantId)) with assistantId.
  rewrite stream_response_state. cbv zeta.
  destruct (session_result net) as [e|[buffer|buffer d]]; try done.
  by destruct (is_AbortError e).
Qed.
End Sessions.

(** ** The frames a session processes *)

Section Processed.
Context `{Decoder : TextDecoder}.
Variable ev : text -> SseEvent.

Lemma up_to_terminal_hit X Y :
  existsb (terminal ev) X = true ->
  up_to_terminal ev (X ++ Y) = up_to_terminal ev X.
Proof.
  induction X as [|x X IH]; [done|]. cbn [existsb up_to_terminal app].
  destruct (terminal ev x); [done|]. cbn [orb]. intros H. by rewrite IH.
Qed.

Lemma up_to_terminal_miss X Y :
  existsb (terminal ev) X = false ->
  up_to_terminal ev (X ++ Y) = X ++ up_to_terminal ev Y.
Proof.
  induction X as [|x X IH]; [done|]. cbn [existsb up_to_terminal app].
  destruct (terminal ev x); [done|]. cbn [orb]. intros H. by rewrite IH.
Qed.

(** The for loop with the observing handler: it records a prefix of the
    segments; either none of them is terminal, all are recorded and the flag
    is as before, or a terminal one is recorded and the loop ran to the end
    with the flag set or stopped on an exception. *)
Lemma for_segments_observe segments doneSignal seen :
  exists pre post,
    segments = pre ++ post
    /\ (for_segments (observe_frame ev) segments doneSignal seen).1
       = seen ++ pre
    /\ (existsb (terminal ev) pre = false /\ post = []
        /\ (for_segments (observe_frame ev) segments doneSignal seen).2
           = inr doneSignal
        \/ existsb (terminal ev) pre = true
           /\ (post = []
               /\ (for_segments (observe_frame ev) segments doneSignal seen).2
                  = inr true
               \/ exists e,
                   (for_segments (observe_frame ev) segments doneSignal seen).2
                   = inl e)).
Proof.
  revert doneSignal seen.
  induction segments as [|x l IH]; intros doneSignal seen.
  - exists [], []. cbn. rewrite app_nil_r.
    split; [done|]. split; [done|]. by left.
  - cbn [for_segments existsb]. unfold mbind, M_bind.
    assert (observe_frame ev x seen
            = (seen ++ [x],
               match ev x with
               | Done => inr true
               | Raise e => inl e
               | NoEvent | Chunk _ => inr false
               end)) as -> by done.
    assert (terminal ev x
            = match ev x with
              | Done | Raise _ => true
              | NoEvent | Chunk _ => false
              end) as Hterminal by done.
    destruct (ev x) as [|value| |e] eqn:Hx.
    + destruct (IH doneSignal (seen ++ [x])) as (pre & post & -> & E1 & E2).
      exists (x :: pre), post. cbn [existsb].
      rewrite Hterminal, E1, <- app_assoc. cbn [orb].
      split; [done|]. by split.
    + destruct (IH doneSignal (seen ++ [x])) as (pre & post & -> & E1 & E2).
      exists (x :: pre), post. cbn [existsb].
      rewrite Hterminal, E1, <- app_assoc. cbn [orb].
      split; [done|]. by split.
    + destruct (IH true (seen ++ [x])) as (pre & post & -> & E1 & E2).
      exists (x :: pre), post. cbn [existsb].
      rewrite Hterminal, E1, <- app_assoc. cbn [orb].
      split; [done|]. split; [done|]. right. split; [done|].
      destruct E2 as [(_ & -> & E2)|(_ & E2)]; [by left|done].
    + exists [x], l. cbn [existsb fst snd]. rewrite Hterminal. cbn [orb].
      split; [done|]. split; [done|]. right. split; [done|].
      right. by exists e.
Qed.

(** Up to the first terminal frame, the frames processed on a complete
    stream are the frames of the whole text. *)
Lemma read_loop_observe_complete chunks d buffer seen :
  existsb (terminal ev) seen = false ->
  up_to_terminal ev
    (read_loop (observe_frame ev) (complete_stream chunks) d buffer false
       seen).1
  = up_to_terminal ev
      (seen ++ whole_stream_frames
                 (buffer ++ (decode d (concat chunks) false).2)).
Proof.
  revert d buffer seen.
  induction chunks as [|c chunks IH]; intros d buffer seen Hseen.
  - unfold complete_stream. cbn [map app concat read_loop negb default].
    destruct (decode d [] false) as [d1 t1]. cbn [fst snd].
    rewrite pop_spec_on_chunk. change (default [] (Some ?x)) with x.
    rewrite whole_stream_frames_eq.
    set (segments := (spec_on_chunk buffer t1).1).
    set (carryover := (spec_on_chunk buffer t1).2).
    destruct (for_segments_observe segments false seen)
      as (pre & post & Hsegs & E1 & E2).
    unfold mbind at 1, M_bind at 1.
    destruct (for_segments (observe_frame ev) segments false seen)
      as [seen' r].
    cbn [fst snd] in E1, E2. subst seen'. rewrite trim_length_test.
    assert (forall b : bool,
              r = inr b -> post = [] ->
              up_to_terminal ev
                (match r with
                 | inl e => (seen ++ pre, inl e)
                 | inr _ =>
                     ((if existsb (fun c => negb (is_space c)) carryover
                       then observe_frame ev carryover
                       else mret false) ≫= fun _ => mret (Finished []))
                       (seen ++ pre)
                 end).1
              = up_to_terminal ev (seen ++ segments ++ spec_on_end carryover))
      as Hfinish.
    { intros b -> ->. rewrite app_nil_r in Hsegs. subst pre.
      unfold spec_on_end, mbind, M_bind, observe_frame, mret, M_ret.
      destruct (existsb _ carryover).
      - destruct (ev carryover); cbn [fst]; by rewrite <- app_assoc.
      - cbn [fst]. by rewrite app_nil_r. }
    destruct E2 as [(Hmiss & Hpost & ->)|(Hhit & [[Hpost ->]|[e ->]])].
    + by apply (Hfinish false).
    + by apply (Hfinish true).
    + cbn [fst]. rewrite Hsegs.
      rewrite !(up_to_terminal_miss seen) by done. f_equal.
      rewrite <- !app_assoc. by rewrite !(up_to_terminal_hit pre).
  - unfold complete_stream. cbn [map app concat read_loop negb].
    fold (complete_stream chunks). change (default [] (Some c)) with c.
    unfold decode at 1. rewrite (surjective_pairing (decode_bytes d c)).
    rewrite pop_spec_on_chunk. change (default [] (Some ?x)) with x.
    assert ((decode d (c ++ concat chunks) false).2
            = (decode_bytes d c).2
              ++ (decode (decode_bytes d c).1 (concat chunks) false).2)
      as Htext.
    { unfold decode. rewrite decode_bytes_app.
      destruct (decode_bytes d c) as [d1 t1]. cbn [fst snd].
      destruct (decode_bytes d1 (concat chunks)) as [d2 t2]. cbn [fst snd].
      by rewrite app_assoc. }
    rewrite Htext, app_assoc, whole_stream_frames_app.
    change (spec_on_chunk [] (buffer ++ (decode_bytes d c).2))
      with (spec_on_chunk buffer (decode_bytes d c).2).
    set (segments := (spec_on_chunk buffer (decode_bytes d c).2).1).
    set (carryover := (spec_on_chunk buffer (decode_bytes d c).2).2).
    set (d1 := (decode_bytes d c).1).
    destruct (for_segments_observe segments false seen)
      as (pre & post & Hsegs & E1 & E2).
    unfold mbind, M_bind.
    destruct (for_segments (observe_frame ev) segments false seen)
      as [seen' r].
    cbn [fst snd] in E1, E2. subst seen'.
    destruct E2 as [(Hmiss & Hpost & ->)|(Hhit & [[Hpost ->]|[e ->]])].
    + subst post. rewrite app_nil_r in Hsegs. subst pre.
      rewrite IH, <- app_assoc; [done|].
      by rewrite existsb_app, Hseen, Hmiss.
    + subst post. rewrite app_nil_r in Hsegs. subst pre.
      rewrite read_loop_flagged. cbn [fst].
      rewrite !(up_to_terminal_miss seen) by done. f_equal.
      by rewrite up_to_terminal_hit.
    + cbn [fst]. rewrite Hsegs.
      rewrite !(up_to_terminal_miss seen) by done. f_equal.
      rewrite <- !app_assoc. by rewrite !(up_to_terminal_hit pre).
Qed.
End Processed.

Section ProcessedBySession.
Context `{JSON : JsonRuntime} `{Decoder : TextDecoder}.

(** The observing handler ends as [processEvent] does, for a callback that
    returns. *)
Lemma observe_frame_as_processEvent {S} (f : text -> M S unit) frame s seen :
  (forall value s', (f value s').2 = inr tt) ->
  (processEvent frame f s).2 = (observe_frame interpret frame seen).2.
Proof.
  intros Hret. rewrite processEvent_interpret. unfold observe_frame.
  destruct (interpret frame) as [|value| |e]; try done.
  cbn [apply_event snd]. unfold mbind, M_bind.
  pose proof (Hret value s) as E. by destruct (f value s) as [s' [?|[]]].
Qed.

(** So the loop of a session ends as the observing loop does. *)
Lemma read_loop_observed {S} (f : text -> M S unit) reads d buffer s :
  (forall value s', (f value s').2 = inr tt) ->
  (read_loop (fun x => processEvent x f) reads d buffer false s).2
  = (read_loop (observe_frame interpret) reads d buffer false []).2.
Proof.
  intros Hret.
  apply (read_loop_agree (fun x => processEvent x f)
           (observe_frame interpret) (fun _ _ => True)); [|done].
  intros frame s' seen _. split; [done|].
  by apply observe_frame_as_processEvent.
Qed.

Lemma watch_processEvent_observe frame seen :
  watch_processEvent frame seen = observe_frame interpret frame seen.
Proof.
  unfold watch_processEvent, observe_frame.
  rewrite processEvent_interpret. by destruct (interpret frame).
Qed.

Lemma frames_processed_observe chunks :
  frames_processed chunks
  = (read_loop (observe_frame interpret) (complete_stream chunks)
       new_TextDecoder [] false []).1.
Proof.
  unfold frames_processed.
  apply (read_loop_agree watch_processEvent (observe_frame interpret) eq);
    [|done].
  intros frame s t ->. by rewrite watch_processEvent_observe.
Qed.

Lemma frames_processed_up_to_terminal chunks :
  up_to_terminal interpret (frames_processed chunks)
  = up_to_terminal interpret (frames chunks).
Proof.
  rewrite frames_processed_observe, read_loop_observe_complete by done.
  by rewrite frames_whole.
Qed.
End ProcessedBySession.

(** * The stated properties *)

(** C1.  Frame splitting does not depend on the delivery chunks: two
    fragmentations of the same byte stream give the same ordered list of
    frames; in particular the stream fed one byte at a time and the stream
    fed as a single chunk give the same frames.  The frames a session hands
    to [processEvent] are these frames too, up to and including the first
    frame that ends the session. *)
Theorem frames_chunk_boundary_invariant `{JSON : JsonRuntime}
    `{Decoder : TextDecoder} (chunks1 chunks2 : list (list byte)) :
  concat chunks1 = concat chunks2 ->
  frames chunks1 = frames chunks2
  /\ frames (map (fun b => [b]) (concat chunks1)) = frames [concat chunks1]
  /\ up_to_terminal interpret (frames_processed chunks1)
     = up_to_terminal interpret (frames_processed chunks2).
Proof.
  intros E.
  assert (frames chunks1 = frames chunks2) as Hframes
    by by rewrite !frames_whole, E.
  split; [done|]. split.
  - rewrite !frames_whole.
    assert (forall l : list byte, concat (map (fun b => [b]) l) = l) as Hone.
    { induction l as [|b l IH]; [done|]. cbn [map concat]. by rewrite IH. }
    rewrite Hone. cbn [concat]. by rewrite app_nil_r.
  - by rewrite !frames_processed_up_to_terminal, Hframes.
Qed.

Lemma frames_chunk_boundary_invariant_witness :
  let part1 := Reference.bytes "data: {'event':'chunk','content':'Hel" in
  let part2 := Reference.bytes "lo'}||" in
  frames (Decoder := Reference.utf8) [part1; part2]
  = frames (Decoder := Reference.utf8) [part1 ++ part2]
  /\ frames (Decoder := Reference.utf8)
       (map (fun b => [b]) (concat [part1; part2]))
     = frames (Decoder := Reference.utf8) [concat [part1; part2]]
  /\ up_to_terminal (interpret (JSON := Reference.json))
       (frames_processed (JSON := Reference.json) (Decoder := Reference.utf8)
          [part1; part2])
     = up_to_terminal (interpret (JSON := Reference.json))
         (frames_processed (JSON := Reference.json)
            (Decoder := Reference.utf8) [part1 ++ part2]).
Proof.
  cbv zeta.
  apply (frames_chunk_boundary_invariant (JSON := Reference.json)
           (Decoder := Reference.utf8)).
  reflexivity.
Defined.

Lemma split_no_occurrence sep s :
  sep <> [] -> ~ occurs sep s -> split sep s = [s].
Proof.
  intros Hsep Hfree. rewrite split_unfold by done.
  destruct (find_first sep s) as [[x y]|] eqn:Hf; [|done].
  destruct Hfree. exists x, y. by apply find_first_Some.
Qed.

Lemma spec_on_chunk_segments carryover decoded :
  (spec_on_chunk carryover decoded).1 ++ [(spec_on_chunk carryover decoded).2]
  = split blank_line (carryover ++ decoded).
Proof.
  rewrite spec_on_chunk_eq. cbn [fst snd]. fold blank_line.
  pose proof (split_not_nil blank_line (carryover ++ decoded)) as Hne.
  destruct (split blank_line (carryover ++ decoded)) as [|x l] using rev_ind.
  - by destruct Hne.
  - by rewrite removelast_last, last_snoc.
Qed.

(** C4.  On a chunk arrival the loop appends the decoded chunk to the
    carry-over buffer, splits the buffer on the blank line, emits every
    segment but the last as a frame, in order, and keeps the last segment as
    the new carry-over; the frames and the carry-over joined by blank lines
    are the buffer, and none of them holds a blank line.  On the end of the
    stream the flushed text is handled the same way, then the carry-over is
    emitted as one last frame when it has a character that is not white
    space, and the buffer is cleared: for a carry-over without blank line
    and a decoder with nothing to flush, that last frame is all that is
    emitted. *)
Theorem reassembler_step `{Decoder : TextDecoder}
    (d : decoder) (carryover : text) (value : list byte)
    (emitted : list text) :
  let decoded := (decode_bytes d value).2 in
  let complete := (spec_on_chunk carryover decoded).1 in
  let carryover' := (spec_on_chunk carryover decoded).2 in
  let flushed := decode_end d in
  read_loop record_frame [Resolved (Some value) false] d carryover false
    emitted
  = (emitted ++ complete,
     inr (Awaiting carryover' (decode_bytes d value).1))
  /\ join blank_line (complete ++ [carryover']) = carryover ++ decoded
  /\ (forall segment, segment ∈ complete ++ [carryover'] ->
        ~ occurs blank_line segment)
  /\ read_loop record_frame [Resolved None true] d carryover false emitted
     = (emitted ++ (spec_on_chunk carryover flushed).1
                ++ spec_on_end (spec_on_chunk carryover flushed).2,
        inr (Finished []))
  /\ (~ occurs blank_line carryover -> flushed = [] ->
      read_loop record_frame [Resolved None true] d carryover false emitted
      = (emitted ++ spec_on_end carryover, inr (Finished []))).
Proof.
  cbv zeta. split; [|split; [|split; [|split]]].
  - by rewrite read_loop_record_chunk.
  - rewrite spec_on_chunk_segments. by apply join_split.
  - intros segment. rewrite spec_on_chunk_segments.
    by apply split_segments_free.
  - rewrite read_loop_record_end. cbn [default]. unfold decode.
    by cbn [decode_bytes fst snd app].
  - intros Hfree Hflush. rewrite read_loop_record_end. cbn [default].
    unfold decode. cbn [decode_bytes fst snd app]. rewrite Hflush.
    rewrite spec_on_chunk_eq, app_nil_r.
    by rewrite (split_no_occurrence [LF; LF] carryover).
Qed.

Lemma reassembler_step_witness :
  let carryover := quoted "data: {'event':'chunk','content':'Hel" in
  let value := Reference.bytes "lo'}||data:" in
  read_loop (Decoder := Reference.utf8) record_frame
    [Resolved (Some value) false] Reference.utf8_new carryover false []
  = ([quoted "data: {'event':'chunk','content':'Hello'}"],
     inr (@Awaiting Reference.utf8 (utf16 "data:")
            (Reference.utf8_reset true)))
  /\ read_loop (Decoder := Reference.utf8) record_frame
       [Resolved None true] Reference.utf8_new carryover false []
     = ([carryover], inr (Finished [])).
Proof.
  cbv zeta.
  pose proof (reassembler_step (Decoder := Reference.utf8) Reference.utf8_new
                (quoted "data: {'event':'chunk','content':'Hel")
                (Reference.bytes "lo'}||data:") []) as H.
  cbv zeta in H. destruct H as (H1 & _ & _ & _ & H5). split.
  - exact (eq_trans H1 eq_refl).
  - refine (eq_trans (H5 _ eq_refl) eq_refl).
    apply find_first_None. reflexivity.
Defined.

(** ** A frame on which the handler throws, anywhere in the stream *)

Section Raising.
Context `{Decoder : TextDecoder} {S : Type}.
Variable h : text -> M S bool.

Lemma for_segments_sticky segments s s' b :
  for_segments h segments true s = (s', inr b) -> b = true.
Proof.
  revert s. induction segments as [|x l IH]; intros s; cbn [for_segments].
  - by intros [= _ <-].
  - unfold mbind, M_bind. destruct (h x s) as [s1 [e|b1]]; [done|].
    destruct b1; apply IH.
Qed.

Lemma for_segments_app X Y doneSignal s s1 b :
  for_segments h X doneSignal s = (s1, inr b) ->
  for_segments h (X ++ Y) doneSignal s = for_segments h Y b s1.
Proof.
  revert doneSignal s. induction X as [|x X IH]; intros doneSignal s;
    cbn [for_segments app].
  - by intros [= -> ->].
  - unfold mbind, M_bind. destruct (h x s) as [s2 [e|b1]]; [done|]. apply IH.
Qed.

Lemma for_segments_app_quiet X Y s s1 :
  for_segments h (X ++ Y) false s = (s1, inr false) ->
  exists s', for_segments h X false s = (s', inr false)
             /\ for_segments h Y false s' = (s1, inr false).
Proof.
  intros H.
  destruct (for_segments h X false s) as [s' [e|b]] eqn:HX.
  - revert s H HX. induction X as [|x X IH]; intros s; cbn [for_segments app];
      [done|].
    unfold mbind, M_bind. destruct (h x s) as [s2 [e'|b1]]; [done|].
    destruct b1.
    + intros H%for_segments_sticky. done.
    + apply IH.
  - rewrite (for_segments_app _ _ _ _ _ _ HX) in H.
    destruct b; [by apply for_segments_sticky in H|]. by exists s'.
Qed.

Lemma app_cons_cases {A} (X tail benign rest : list A) frame :
  X ++ tail = benign ++ frame :: rest ->
  (exists more, X = benign ++ frame :: more)
  \/ (exists benign', benign = X ++ benign' /\ tail = benign' ++ frame :: rest).
Proof.
  intros [(k & -> & E)|(k & -> & E)]%app_eq_inv.
  - destruct k as [|y k].
    + right. exists []. by rewrite !app_nil_r.
    + injection E as <- ->. left. by exists k.
  - right. by exists k.
Qed.

Lemma read_loop_record_log reads d buffer doneSignal log :
  (read_loop record_frame reads d buffer doneSignal log).1
  = log ++ (read_loop record_frame reads d buffer doneSignal []).1.
Proof.
  revert d buffer doneSignal log.
  induction reads as [|r reads IH]; intros d buffer doneSignal log.
  - destruct doneSignal; cbn; by rewrite app_nil_r.
  - cbn [read_loop]. destruct doneSignal; [cbn; by rewrite app_nil_r|].
    destruct r as [value fin|e']; [|cbn; by rewrite app_nil_r].
    destruct (decode d (default [] value) (negb fin)) as [d1 decoded].
    destruct (pop (split [LF; LF] (buffer ++ decoded))) as [segments popped].
    unfold mbind at 1 3, M_bind at 1 3. rewrite !for_segments_record.
    destruct fin.
    + destruct (negb _); unfold mbind, M_bind, record_frame, mret, M_ret;
        cbn [fst app]; by rewrite <- ?app_assoc, ?app_nil_r.
    + rewrite IH, (IH _ _ _ ([] ++ segments)). cbn [app].
      by rewrite app_assoc.
Qed.

(** If the frames the loop produces on [reads] are [benign], then [frame],
    then others, the handler goes through [benign] without signalling the
    end, and throws on [frame], then the loop throws that exception, in the
    state the handler left. *)
Lemma read_loop_raises reads d buffer s benign frame rest s1 s2 e :
  (read_loop record_frame reads d buffer false []).1
  = benign ++ frame :: rest ->
  for_segments h benign false s = (s1, inr false) ->
  h frame s1 = (s2, inl e) ->
  read_loop h reads d buffer false s = (s2, inl e).
Proof.
  revert d buffer s benign.
  induction reads as [|r reads IH]; intros d buffer s benign Hlog Hquiet Hraise.
  - by destruct benign.
  - destruct r as [value fin|e']; [|by destruct benign].
    revert Hlog. cbn [read_loop].
    destruct (decode d (default [] value) (negb fin)) as [d1 decoded].
    destruct (pop (split [LF; LF] (buffer ++ decoded))) as [segments popped].
    unfold mbind at 1 3, M_bind at 1 3. rewrite for_segments_record.
    cbn [app]. destruct fin.
    + rewrite trim_length_test.
      destruct (existsb _ (default [] popped)) eqn:Hlast;
        cbn [negb]; unfold mbind, M_bind, record_frame, mret, M_ret;
        cbn [fst]; intros Hlog.
      * apply app_cons_cases in Hlog as [(more & ->)|(benign' & -> & Htail)].
        -- rewrite (for_segments_app _ _ _ _ _ _ Hquiet).
           cbn [for_segments]. unfold mbind, M_bind. by rewrite Hraise.
        -- apply for_segments_app_quiet in Hquiet as (s' & HX & HY).
           rewrite HX. destruct benign' as [|y [|z k]]; try done.
           injection Htail as -> _. cbn in HY. injection HY as ->.
           by rewrite Hraise.
      * rewrite Hlog.
        rewrite (for_segments_app _ _ _ _ _ _ Hquiet).
        cbn [for_segments]. unfold mbind, M_bind. by rewrite Hraise.
    + cbn [negb]. rewrite read_loop_record_log.
      intros [(more & ->)|(benign' & -> & Htail)]%app_cons_cases.
      * rewrite (for_segments_app _ _ _ _ _ _ Hquiet).
        cbn [for_segments]. unfold mbind, M_bind. by rewrite Hraise.
      * apply for_segments_app_quiet in Hquiet as (s' & HX & HY).
        rewrite HX. by apply (IH _ _ _ benign').
Qed.
End Raising.

(** ** The frames delivered so far *)

Section Delivered.
Context `{Decoder : TextDecoder}.

Lemma read_loop_record_in_flight chunks d buffer log :
  ~ occurs [LF; LF] buffer ->
  (read_loop record_frame (map (fun c => Resolved (Some c) false) chunks)
     d buffer false log).1
  = log ++ removelast
             (split [LF; LF] (buffer ++ (decode_bytes d (concat chunks)).2)).
Proof.
  revert d buffer log. induction chunks as [|c chunks IH];
    intros d buffer log Hfree.
  - cbn. rewrite app_nil_r, split_no_occurrence by done. cbn.
    by rewrite app_nil_r.
  - cbn [map concat]. rewrite read_loop_record_chunk, spec_on_chunk_eq.
    cbn [fst snd]. rewrite decode_bytes_app.
    destruct (decode_bytes d c) as [d1 t1].
    destruct (decode_bytes d1 (concat chunks)) as [d2 t2] eqn:Hrest.
    cbn [fst snd].
    assert (split [LF; LF] (buffer ++ t1) <> []) as Hne
      by by apply split_not_nil.
    rewrite IH.
    + rewrite Hrest. cbn [snd]. rewrite <- app_assoc. f_equal.
      rewrite (app_assoc buffer), (split_app [LF; LF] (buffer ++ t1)) by done.
      rewrite removelast_app; [done|]. by apply split_not_nil.
    + apply (split_segments_free [LF; LF] (buffer ++ t1)); [done|].
      destruct (last _) as [x|] eqn:Hlast; [|by apply last_None in Hlast].
      apply last_Some in Hlast as [l' ->]. cbn.
      apply elem_of_app. right. by left.
Qed.

(** The frames of the deliveries so far are the segments of the text
    decoded so far, but the last, which is still open. *)
Lemma frames_delivered_in_flight chunks :
  frames_delivered (map (fun c => Resolved (Some c) false) chunks)
  = removelast
      (split [LF; LF] (decode_bytes new_TextDecoder (concat chunks)).2).
Proof.
  unfold frames_delivered. rewrite read_loop_record_in_flight; [done|].
  apply find_first_None. reflexivity.
Qed.

(** The frames of a complete stream are those the reassembler gives. *)
Lemma frames_delivered_complete chunks :
  frames_delivered (complete_stream chunks) = frames chunks.
Proof. reflexivity. Qed.
End Delivered.

(** ** Sessions that meet a given frame *)

Section FirstFrame.
Context `{JSON : JsonRuntime} `{Decoder : TextDecoder}.

Lemma chunk_values_cons (ev : text -> SseEvent) x l :
  chunk_values ev (x :: l)
  = match ev x with
    | Chunk value => value :: chunk_values ev l
    | _ => chunk_values ev l
    end.
Proof. unfold chunk_values. simpl. by destruct (ev x). Qed.

(** Frames that neither end the session nor raise: [processEvent] goes
    through them, applying their chunks and nothing else. *)
Lemma for_segments_quiet benign applied :
  existsb (terminal interpret) benign = false ->
  for_segments (fun x => processEvent x record_chunk) benign false applied
  = (applied ++ chunk_values interpret benign, inr false).
Proof.
  revert applied. induction benign as [|x l IH]; intros applied.
  - intros _. cbn. by rewrite app_nil_r.
  - cbn [existsb for_segments]. unfold terminal at 1.
    rewrite chunk_values_cons.
    unfold mbind at 1, M_bind at 1. rewrite processEvent_interpret.
    destruct (interpret x) as [|value| |e]; cbn [orb apply_event]; try done.
    + intros Hl. unfold mret, M_ret. by rewrite IH.
    + intros Hl. unfold mbind, M_bind, record_chunk, modify, mret, M_ret.
      rewrite IH by done. by rewrite <- app_assoc.
Qed.

(** The session on reads whose frames are [benign], then a frame that
    raises, then others: the chunks of [benign] are applied and the
    exception ends the try block. *)
Lemma raising_frame_ends_session reads benign frame rest e :
  frames_delivered reads = benign ++ frame :: rest ->
  existsb (terminal interpret) benign = false ->
  interpret frame = Raise e ->
  stream_response record_chunk (Response true (Some reads)) []
  = (chunk_values interpret benign, inl e).
Proof.
  intros Hframes Hquiet Hev. cbn [stream_response].
  apply (read_loop_raises _ reads _ _ _ benign frame rest
           (chunk_values interpret benign)); [done| |].
  - by rewrite for_segments_quiet.
  - by rewrite processEvent_interpret, Hev.
Qed.

Lemma lone_frame_ignored value frame carryover :
  split [LF; LF] (decode_bytes new_TextDecoder value).2 = [frame; carryover] ->
  interpret frame = NoEvent ->
  stream_response record_chunk
    (Response true (Some [Resolved (Some value) false])) []
  = ([], inr (Awaiting carryover (decode_bytes new_TextDecoder value).1)).
Proof.
  intros Hsplit Hev. cbn [stream_response read_loop negb].
  change (default [] (Some value)) with value. unfold decode.
  destruct (decode_bytes new_TextDecoder value) as [d decoded].
  cbn [fst snd app] in *. rewrite Hsplit. unfold pop.
  cbn [removelast last for_segments].
  unfold mbind, M_bind. by rewrite processEvent_interpret, Hev.
Qed.
End FirstFrame.

(** ** The transcript as a list *)

Lemma lookup_map {A B} (f : A -> B) (l : list A) (i : nat) :
  map f l !! i = f <$> (l !! i).
Proof.
  revert i. induction l as [|x l IH]; intros [|i]; simpl; done.
Qed.

Lemma append_to_lookup target value current i :
  append_to target value current !! i =
    (fun m => if bool_decide (id m = target)
              then {| id := id m; role := role m;
                      content := content m ++ value;
                      skipContext := skipContext m |}
              else m) <$> (current !! i).
Proof. unfold append_to. apply lookup_map. Qed.

Lemma active_message_lookup assistantId value history userMessage :
  append_to assistantId value
    (history ++ [userMessage; new_assistant_message assistantId])
    !! (length history + 1)%nat
  = Some {| id := assistantId; role := assistant; content := value;
            skipContext := None |}.
Proof.
  rewrite append_to_lookup, lookup_app_r by lia.
  replace (length history + 1 - length history)%nat with 1%nat by lia.
  cbn. by rewrite bool_decide_eq_true_2.
Qed.

(** A read that is rejected while the session is suspended ends it with the
    transcript as it stood. *)
Lemma rejected_read_keeps_transcript `{JSON : JsonRuntime}
    `{Decoder : TextDecoder} userId assistantId st reads e :
  outcome (handleSubmit userId assistantId (Response true (Some reads)) st)
  = Suspended ->
  outcome (handleSubmit userId assistantId
             (Response true (Some (reads ++ [Rejected e]))) st) = Caught e
  /\ messages (state (handleSubmit userId assistantId
                        (Response true (Some (reads ++ [Rejected e]))) st))
     = messages (state (handleSubmit userId assistantId
                          (Response true (Some reads)) st)).
Proof.
  unfold handleSubmit, handleSubmit_of_render. destruct (_ || _); [done|].
  cbn [stream_response].
  destruct (read_loop _ reads _ _ _ _) as [st' [e'|[buffer|buffer d]]] eqn:E;
    try done.
  intros _. rewrite (read_loop_resume _ _ [Rejected e] _ _ _ _ _ _ E).
  cbn [read_loop]. unfold throw. by destruct (is_AbortError e).
Qed.

(** C5.  When a session fails or is cancelled, the content of the active
    assistant message is the concatenation, in order, of the contents of the
    chunk events applied before: the catch clause leaves the transcript as
    it was when the exception was thrown.  In particular a read rejected
    while the session is suspended (a cancellation, a network failure)
    leaves the transcript of the suspended session. *)
Theorem partial_content_preserved `{JSON : JsonRuntime}
    `{Decoder : TextDecoder} (userId assistantId : text) (net : FetchResult)
    (st : AppState) (e : Thrown) :
  trim (inputValue st) <> [] -> isStreaming st = false ->
  outcome (handleSubmit userId assistantId net st) = Caught e ->
  let result := handleSubmit userId assistantId net st in
  let applied := chunks_applied net in
  messages (state result)
  = append_to assistantId (concat applied)
      (messages st ++ [new_user_message userId (trim (inputValue st));
                       new_assistant_message assistantId])
  /\ messages (state result) !! (length (messages st) + 1)%nat
     = Some {| id := assistantId; role := assistant;
               content := concat applied; skipContext := None |}
  /\ session_state (outcome result)
     = (if is_AbortError e then Cancelled else Failed)
  /\ isStreaming (state result) = false
  /\ (forall reads,
        net = Response true (Some (reads ++ [Rejected e])) ->
        outcome (handleSubmit userId assistantId
                   (Response true (Some reads)) st) = Suspended ->
        messages (state result)
        = messages (state (handleSubmit userId assistantId
                             (Response true (Some reads)) st))).
Proof.
  intros Hin Hidle Hcaught. cbv zeta.
  assert (session_result net = inl e) as Hresult.
  { revert Hcaught. rewrite (handleSubmit_accepted _ _ _ _ Hin Hidle).
    cbv zeta.
    destruct (session_result net) as [e'|[buffer|buffer d]]; try done.
    by intros [= ->]. }
  split; [|split; [|split; [|split]]].
  - by rewrite (handleSubmit_accepted _ _ _ _ Hin Hidle), Hresult.
  - rewrite (handleSubmit_accepted _ _ _ _ Hin Hidle), Hresult.
    apply active_message_lookup.
  - by rewrite Hcaught.
  - by rewrite (handleSubmit_accepted _ _ _ _ Hin Hidle), Hresult.
  - intros reads -> Hsuspended.
    by apply rejected_read_keeps_transcript.
Qed.

Lemma partial_content_preserved_witness :
  let st := fresh (utf16 " hi ") in
  let failing := Response true (Some
    [Resolved (Some (Reference.bytes "data: {'event':'chunk','content':'Par'}||")) false;
     Resolved (Some (Reference.bytes "data: {'event':'chunk','content':'tial'}||data: {'event':'error','content':'overloaded'}||")) false]) in
  let cancelled := Response true (Some
    [Resolved (Some (Reference.bytes "data: {'event':'chunk','content':'Par'}||")) false;
     Rejected AbortError]) in
  let run := handleSubmit (JSON := Reference.json) (Decoder := Reference.utf8)
               (utf16 "u") (utf16 "a") in
  (messages (state (run failing st)) !! 2%nat
     = Some {| id := utf16 "a"; role := assistant;
               content := utf16 "Partial"; skipContext := None |}
   /\ session_state (outcome (run failing st)) = Failed)
  /\ (messages (state (run cancelled st)) !! 2%nat
     = Some {| id := utf16 "a"; role := assistant;
               content := utf16 "Par"; skipContext := None |}
   /\ session_state (outcome (run cancelled st)) = Cancelled).
Proof.
  cbv zeta. split.
  - destruct (partial_content_preserved (JSON := Reference.json)
                (Decoder := Reference.utf8) (utf16 "u") (utf16 "a")
                (Response true (Some
    [Resolved (Some (Reference.bytes "data: {'event':'chunk','content':'Par'}||")) false;
     Resolved (Some (Reference.bytes "data: {'event':'chunk','content':'tial'}||data: {'event':'error','content':'overloaded'}||")) false]))
                (fresh (utf16 " hi "))
                (Error (utf16 "overloaded")))
      as (_ & H2 & H3 & _ & _); [by vm_compute|reflexivity|by vm_compute|].
    split; [exact (eq_trans H2 eq_refl)|exact H3].
  - destruct (partial_content_preserved (JSON := Reference.json)
                (Decoder := Reference.utf8) (utf16 "u") (utf16 "a")
                (Response true (Some
    [Resolved (Some (Reference.bytes "data: {'event':'chunk','content':'Par'}||")) false;
     Rejected AbortError]))
                (fresh (utf16 " hi "))
                AbortError)
      as (_ & H2 & H3 & _); [by vm_compute|reflexivity|by vm_compute|].
    split; [exact (eq_trans H2 eq_refl)|exact H3].
Defined.

(** ** Frames with a data line *)

Section DataLine.
Context `{JSON : JsonRuntime} `{Decoder : TextDecoder}.

Lemma interpret_data_line frame dataLine :
  find (startsWith (utf16 "data:")) (split [LF] frame) = Some dataLine ->
  interpret frame =
    match JSON_parse (strip_data_prefix dataLine) with
    | None => Raise (SyntaxError (strip_data_prefix dataLine))
    | Some payload => interpret_payload payload
    end.
Proof.
  intros Hfind. unfold interpret. rewrite Hfind.
  apply find_some in Hfind as [_ Hprefix]. by destruct dataLine.
Qed.

(** A session that meets a frame that raises, after frames that neither end
    it nor raise. *)
Lemma raising_frame_session_fails userId assistantId st reads benign frame
    rest e :
  trim (inputValue st) <> [] -> isStreaming st = false ->
  frames_delivered reads = benign ++ frame :: rest ->
  existsb (terminal interpret) benign = false ->
  interpret frame = Raise e ->
  handleSubmit userId assistantId (Response true (Some reads)) st
  = {| state :=
         {| messages :=
              append_to assistantId (concat (chunk_values interpret benign))
                (messages st
                 ++ [new_user_message userId (trim (inputValue st));
                     new_assistant_message assistantId]);
            inputValue := []; isStreaming := false;
            errorMessage :=
              Some (if is_AbortError e
                    then Literal (utf16 "Generation cancelled.")
                    else message e) |};
       request :=
         Some (request_messages (messages st)
                 (new_user_message userId (trim (inputValue st))));
       outcome := Caught e |}.
Proof.
  intros Hin Hidle Hframes Hquiet Hev.
  rewrite (handleSubmit_accepted _ _ _ _ Hin Hidle). cbv zeta.
  unfold session_result, chunks_applied.
  by rewrite (raising_frame_ends_session _ _ _ _ _ Hframes Hquiet Hev).
Qed.

(** A session whose only delivery so far holds one frame without event. *)
Lemma lone_frame_session_goes_on userId assistantId st value frame carryover :
  trim (inputValue st) <> [] -> isStreaming st = false ->
  split [LF; LF] (decode_bytes new_TextDecoder value).2 = [frame; carryover] ->
  interpret frame = NoEvent ->
  handleSubmit userId assistantId
    (Response true (Some [Resolved (Some value) false])) st
  = {| state :=
         {| messages :=
              messages st ++ [new_user_message userId (trim (inputValue st));
                              new_assistant_message assistantId];
            inputValue := []; isStreaming := true; errorMessage := None |};
       request :=
         Some (request_messages (messages st)
                 (new_user_message userId (trim (inputValue st))));
       outcome := Suspended |}.
Proof.
  intros Hin Hidle Hsplit Hev.
  rewrite (handleSubmit_accepted _ _ _ _ Hin Hidle). cbv zeta.
  unfold session_result, chunks_applied.
  rewrite (lone_frame_ignored _ _ _ Hsplit Hev).
  cbn [fst snd concat]. by rewrite append_to_nil.
Qed.
End DataLine.

(** C7.  A frame whose payload parses, has the event [chunk] and has no
    content or a content that is not a string gives no event and raises
    nothing: [processEvent] returns false without calling the callback, the
    transcript is unchanged and the session stays in the streaming state. *)
Theorem chunk_without_string_content_is_ignored `{JSON : JsonRuntime}
    `{Decoder : TextDecoder} (frame dataLine : text)
    (fields : list (text * JsValue)) :
  find (startsWith (utf16 "data:")) (split [LF] frame) = Some dataLine ->
  JSON_parse (strip_data_prefix dataLine) = Some (JObj fields) ->
  own_property (utf16 "event") fields = Some (JStr (utf16 "chunk")) ->
  (forall s, own_property (utf16 "content") fields <> Some (JStr s)) ->
  interpret frame = NoEvent
  /\ (forall S (appendChunk : text -> M S unit) (st : S),
        processEvent frame appendChunk st = (st, inr false))
  /\ (forall userId assistantId st value carryover,
        trim (inputValue st) <> [] -> isStreaming st = false ->
        split [LF; LF] (decode_bytes new_TextDecoder value).2
          = [frame; carryover] ->
        let result :=
          handleSubmit userId assistantId
            (Response true (Some [Resolved (Some value) false])) st in
        session_state (outcome result) = Streaming
        /\ messages (state result)
           = messages st ++ [new_user_message userId (trim (inputValue st));
                             new_assistant_message assistantId]
        /\ errorMessage (state result) = None
        /\ isStreaming (state result) = true).
Proof.
  intros Hfind Hparse Hevent Hcontent.
  assert (interpret frame = NoEvent) as Hev.
  { rewrite (interpret_data_line _ _ Hfind), Hparse.
    cbn [interpret_payload]. rewrite Hevent.
    change (bool_decide (utf16 "chunk" = utf16 "chunk")) with true. cbn iota.
    destruct (own_property (utf16 "content") fields) as [[| | |s| |]|] eqn:E;
      try done.
    by destruct (Hcontent s). }
  split; [done|]. split.
  - intros S appendChunk st. by rewrite processEvent_interpret, Hev.
  - intros userId assistantId st value carryover Hin Hidle Hsplit. cbv zeta.
    by rewrite (lone_frame_session_goes_on _ _ _ _ _ _ Hin Hidle Hsplit Hev).
Qed.

Lemma chunk_without_string_content_is_ignored_witness :
  let frame := quoted "data: {'event':'chunk','content':5}" in
  let st := fresh (utf16 "hi") in
  let result :=
    handleSubmit (JSON := Reference.json) (Decoder := Reference.utf8)
      (utf16 "u") (utf16 "a")
      (Response true (Some
         [Resolved (Some (Reference.bytes "data: {'event':'chunk','content':5}||")) false]))
       st in
  processEvent (JSON := Reference.json) frame record_chunk [] = ([], inr false)
  /\ session_state (outcome result) = Streaming
  /\ messages (state result)
     = initialMessages ++ [new_user_message (utf16 "u") (utf16 "hi");
                           new_assistant_message (utf16 "a")].
Proof.
  cbv zeta.
  destruct (chunk_without_string_content_is_ignored
              (JSON := Reference.json) (Decoder := Reference.utf8)
              (quoted "data: {'event':'chunk','content':5}")
              (quoted "data: {'event':'chunk','content':5}")
              [(utf16 "event", JStr (utf16 "chunk"));
               (utf16 "content", JNum 5 0)])
    as (_ & H2 & H3); [reflexivity|reflexivity|reflexivity|by intros s| ].
  split; [apply H2|].
  destruct (H3 (utf16 "u") (utf16 "a")
              (fresh (utf16 "hi"))
              (Reference.bytes "data: {'event':'chunk','content':5}||") [])
    as (H4 & H5 & _); [by vm_compute|reflexivity|reflexivity|].
  split; [exact H4|exact H5].
Defined.

(** C3, as stated, fails: a frame whose payload parses and names an event
    that is none of chunk, done and error makes [processEvent] return false,
    and the session completes with no error message; and a payload that does
    not parse ends the session with the message of the parser's own
    exception, not with the literal of the catch clause. *)
Lemma unknown_event_is_not_a_failure :
  let frame := quoted "data: {'event':'ping'}" in
  let st := fresh (utf16 "hi") in
  let run := handleSubmit (JSON := Reference.json) (Decoder := Reference.utf8)
               (utf16 "u") (utf16 "a") in
  let unknown := run (Response true (Some
    [Resolved (Some (Reference.bytes "data: {'event':'ping'}||")) false;
     Resolved None true])) st in
  let unparseable := run (Response true (Some
    [Resolved (Some (Reference.bytes "data: {oops||")) false;
     Resolved None true])) st in
  Reference.parse (strip_data_prefix frame)
    = Some (JObj [(utf16 "event", JStr (utf16 "ping"))])
  /\ processEvent (JSON := Reference.json) frame record_chunk []
     = ([], inr false)
  /\ session_state (outcome unknown) = Completed
  /\ session_state (outcome unknown) <> Failed
  /\ errorMessage (state unknown) = None
  /\ session_state (outcome unparseable) = Failed
  /\ errorMessage (state unparseable)
     = Some (EngineMessage (SyntaxError (utf16 "{oops")))
  /\ errorMessage (state unparseable)
     <> Some (Literal (utf16 "Unexpected response payload.")).
Proof. cbv zeta. vm_compute. repeat split; congruence. Qed.

(** C3, amended.  A frame whose data payload is not parseable as JSON (or
    is the JSON null, which has no fields to read) makes [processEvent]
    throw, with the state unchanged, and the session that meets such a
    frame -- wherever it is in the stream, in whichever delivery, after any
    frames that neither ended the session nor raised -- ends in the failed
    state with a message for the user, no longer streaming.  A frame whose
    payload parses to any other value that does not carry one of the events
    chunk, done and error -- in particular an object whose event is present
    but is none of the three -- raises nothing: [processEvent] returns false
    and the state is unchanged. *)
Theorem malformed_fails_unknown_is_ignored `{JSON : JsonRuntime}
    `{Decoder : TextDecoder} (frame dataLine : text) :
  find (startsWith (utf16 "data:")) (split [LF] frame) = Some dataLine ->
  (forall e,
     JSON_parse (strip_data_prefix dataLine) = None
     /\ e = SyntaxError (strip_data_prefix dataLine)
     \/ JSON_parse (strip_data_prefix dataLine) = Some JNull
        /\ e = TypeError_null (utf16 "event") ->
     (forall S (appendChunk : text -> M S unit) (st : S),
        processEvent frame appendChunk st = (st, inl e))
     /\ (forall userId assistantId st reads benign rest,
           trim (inputValue st) <> [] -> isStreaming st = false ->
           frames_delivered reads = benign ++ frame :: rest ->
           existsb (terminal interpret) benign = false ->
           let result :=
             handleSubmit userId assistantId (Response true (Some reads)) st in
           outcome result = Caught e
           /\ session_state (outcome result) = Failed
           /\ is_Some (errorMessage (state result))
           /\ isStreaming (state result) = false))
  /\ (forall payload,
        JSON_parse (strip_data_prefix dataLine) = Some payload ->
        payload <> JNull ->
        (forall fields kind,
           payload = JObj fields ->
           own_property (utf16 "event") fields = Some (JStr kind) ->
           kind <> utf16 "chunk" /\ kind <> utf16 "done"
           /\ kind <> utf16 "error") ->
        forall S (appendChunk : text -> M S unit) (st : S),
          processEvent frame appendChunk st = (st, inr false)).
Proof.
  intros Hfind. split.
  - intros e He.
    assert (interpret frame = Raise e /\ is_AbortError e = false)
      as (Hev & Habort).
    { rewrite (interpret_data_line _ _ Hfind).
      by destruct He as [[-> ->]|[-> ->]]. }
    split.
    + intros S appendChunk st. by rewrite processEvent_interpret, Hev.
    + intros userId assistantId st reads benign rest Hin Hidle Hframes Hquiet.
      cbv zeta.
      rewrite (raising_frame_session_fails _ _ _ _ _ _ _ _
                 Hin Hidle Hframes Hquiet Hev).
      cbn [outcome state session_state errorMessage isStreaming].
      by rewrite Habort.
  - intros payload Hparse Hnull Hkind S appendChunk st.
    rewrite processEvent_interpret, (interpret_data_line _ _ Hfind), Hparse.
    destruct payload as [| | | | |fields]; try done.
    cbn [interpret_payload].
    destruct (own_property (utf16 "event") fields) as [[| | |kind| |]|] eqn:E;
      try done.
    destruct (Hkind fields kind eq_refl E) as (H1 & H2 & H3).
    by rewrite !bool_decide_eq_false_2.
Qed.

Lemma malformed_fails_unknown_is_ignored_witness :
  let st := fresh (utf16 "hi") in
  let result :=
    handleSubmit (JSON := Reference.json) (Decoder := Reference.utf8)
      (utf16 "u") (utf16 "a")
      (Response true (Some
         [Resolved (Some (Reference.bytes
            "data: {'event':'chunk','content':'Hel'}||data: {'event':'ping'}||da"))
            false;
          Resolved (Some (Reference.bytes "ta: {oops||data: {'event':'done'}||"))
            false])) st in
  (session_state (outcome result) = Failed
   /\ is_Some (errorMessage (state result))
   /\ isStreaming (state result) = false)
  /\ processEvent (JSON := Reference.json) (quoted "data: {'event':'ping'}")
       record_chunk []
     = ([], inr false).
Proof.
  cbv zeta. split.
  - destruct (malformed_fails_unknown_is_ignored (JSON := Reference.json)
                (Decoder := Reference.utf8)
                (utf16 "data: {oops") (utf16 "data: {oops") eq_refl)
      as [H1 _].
    destruct (H1 (SyntaxError (utf16 "{oops")) (or_introl (conj eq_refl eq_refl)))
      as [_ H2].
    destruct (H2 (utf16 "u") (utf16 "a")
                (fresh (utf16 "hi"))
                [Resolved (Some (Reference.bytes
                   "data: {'event':'chunk','content':'Hel'}||data: {'event':'ping'}||da"))
                   false;
                 Resolved (Some (Reference.bytes
                   "ta: {oops||data: {'event':'done'}||")) false]
                [quoted "data: {'event':'chunk','content':'Hel'}";
                 quoted "data: {'event':'ping'}"]
                [quoted "data: {'event':'done'}"])
      as (_ & H3 & H4 & H5);
      [by vm_compute|reflexivity|by vm_compute|by vm_compute|].
    split; [exact H3|]. split; [exact H4|exact H5].
  - destruct (malformed_fails_unknown_is_ignored (JSON := Reference.json)
                (Decoder := Reference.utf8)
                (quoted "data: {'event':'ping'}")
                (quoted "data: {'event':'ping'}") eq_refl)
      as [_ H1].
    apply (H1 (JObj [(utf16 "event", JStr (utf16 "ping"))]));
      [reflexivity|done|].
    intros fields kind [= <-] [= <-]. by vm_compute.
Defined.

(** C6, as stated, fails: an error event whose content is the empty string
    is not surfaced verbatim; the default message is shown. *)
Lemma empty_error_content_not_verbatim :
  let frame := quoted "data: {'event':'error','content':''}" in
  let st := fresh (utf16 "hi") in
  let result :=
    handleSubmit (JSON := Reference.json) (Decoder := Reference.utf8)
      (utf16 "u") (utf16 "a")
      (Response true (Some
         [Resolved (Some (Reference.bytes "data: {'event':'error','content':''}||"))
            false])) st in
  Reference.parse (strip_data_prefix frame)
    = Some (JObj [(utf16 "event", JStr (utf16 "error"));
                  (utf16 "content", JStr [])])
  /\ processEvent (JSON := Reference.json) frame record_chunk []
     = ([], inl (Error (utf16 "The assistant ran into an issue.")))
  /\ session_state (outcome result) = Failed
  /\ errorMessage (state result)
     = Some (Literal (utf16 "The assistant ran into an issue."))
  /\ errorMessage (state result) <> Some (Literal []).
Proof. cbv zeta. vm_compute. repeat split; congruence. Qed.

(** C6, amended.  A frame carrying an event of kind error makes
    [processEvent] throw, and the session that meets it -- wherever it is in
    the stream, in whichever delivery, after any frames that neither ended
    the session nor raised, whose chunks stay in the transcript -- ends in
    the failed state, no longer streaming, with the message of the exception
    as the user-facing message.  That message is the frame's content when it
    is a string that is not empty, and the default message when the content
    is absent or the empty string. *)
Theorem error_event_fails_session `{JSON : JsonRuntime}
    `{Decoder : TextDecoder} (frame dataLine : text)
    (fields : list (text * JsValue)) :
  find (startsWith (utf16 "data:")) (split [LF] frame) = Some dataLine ->
  JSON_parse (strip_data_prefix dataLine) = Some (JObj fields) ->
  own_property (utf16 "event") fields = Some (JStr (utf16 "error")) ->
  let raised := error_of_content (own_property (utf16 "content") fields) in
  (forall S (appendChunk : text -> M S unit) (st : S),
     processEvent frame appendChunk st = (st, inl raised))
  /\ (forall shown,
        own_property (utf16 "content") fields = Some (JStr shown) ->
        shown <> [] -> message raised = Literal shown)
  /\ (own_property (utf16 "content") fields = None
      \/ own_property (utf16 "content") fields = Some (JStr []) ->
      message raised = Literal (utf16 "The assistant ran into an issue."))
  /\ (forall userId assistantId st reads benign rest,
        trim (inputValue st) <> [] -> isStreaming st = false ->
        frames_delivered reads = benign ++ frame :: rest ->
        existsb (terminal interpret) benign = false ->
        let result :=
          handleSubmit userId assistantId (Response true (Some reads)) st in
        session_state (outcome result) = Failed
        /\ errorMessage (state result) = Some (message raised)
        /\ isStreaming (state result) = false
        /\ messages (state result)
           = append_to assistantId (concat (chunk_values interpret benign))
               (messages st
                ++ [new_user_message userId (trim (inputValue st));
                    new_assistant_message assistantId])).
Proof.
  intros Hfind Hparse Hevent raised.
  assert (interpret frame = Raise raised) as Hev.
  { rewrite (interpret_data_line _ _ Hfind), Hparse.
    cbn [interpret_payload]. rewrite Hevent.
    change (bool_decide (utf16 "error" = utf16 "chunk")) with false.
    by change (bool_decide (utf16 "error" = utf16 "error")) with true. }
  assert (is_AbortError raised = false) as Habort.
  { unfold raised, error_of_content.
    destruct (own_property (utf16 "content") fields) as [[|b|m x|s|l|fs]|];
      try done.
    - by destruct (ToBoolean (JBool b)).
    - by destruct (ToBoolean (JNum m x)).
    - by case_bool_decide. }
  split; [|split; [|split]].
  - intros S appendChunk st. by rewrite processEvent_interpret, Hev.
  - intros shown Hcontent Hshown. unfold raised, error_of_content.
    rewrite Hcontent. by rewrite bool_decide_eq_false_2.
  - unfold raised, error_of_content. by intros [-> | ->].
  - intros userId assistantId st reads benign rest Hin Hidle Hframes Hquiet.
    cbv zeta.
    rewrite (raising_frame_session_fails _ _ _ _ _ _ _ _
               Hin Hidle Hframes Hquiet Hev).
    cbn [outcome state session_state errorMessage isStreaming messages].
    by rewrite Habort.
Qed.

Lemma error_event_fails_session_witness :
  let st := fresh (utf16 "hi") in
  let result :=
    handleSubmit (JSON := Reference.json) (Decoder := Reference.utf8)
      (utf16 "u") (utf16 "a")
      (Response true (Some
         [Resolved (Some (Reference.bytes
            "data: {'event':'chunk','content':'Par'}||data: {'event':'chu"))
            false;
          Resolved (Some (Reference.bytes
            "nk','content':'tial'}||data: {'event':'error','content':'overloaded'}||"))
            false])) st in
  session_state (outcome result) = Failed
  /\ errorMessage (state result) = Some (Literal (utf16 "overloaded"))
  /\ active result = Some (utf16 "Partial").
Proof.
  cbv zeta.
  destruct (error_event_fails_session (JSON := Reference.json)
              (Decoder := Reference.utf8)
              (quoted "data: {'event':'error','content':'overloaded'}")
              (quoted "data: {'event':'error','content':'overloaded'}")
              [(utf16 "event", JStr (utf16 "error"));
               (utf16 "content", JStr (utf16 "overloaded"))])
    as (_ & _ & _ & H); [reflexivity|reflexivity|reflexivity|].
  destruct (H (utf16 "u") (utf16 "a")
              (fresh (utf16 "hi"))
              [Resolved (Some (Reference.bytes
                 "data: {'event':'chunk','content':'Par'}||data: {'event':'chu"))
                 false;
               Resolved (Some (Reference.bytes
                 "nk','content':'tial'}||data: {'event':'error','content':'overloaded'}||"))
                 false]
              [quoted "data: {'event':'chunk','content':'Par'}";
               quoted "data: {'event':'chunk','content':'tial'}"]
              [])
    as (H1 & H2 & _ & H4);
    [by vm_compute|reflexivity|by vm_compute|by vm_compute|].
  split; [exact H1|]. split; [exact H2|].
  unfold active. by rewrite H4.
Defined.

(** C2 does not hold of the loop: a done event stops the reading of further
    deliveries, but the frames that follow it in the same delivery are
    still processed.  Here the chunk that follows the done event in one
    delivery is appended to the assistant message, while the same chunk
    arriving in a later delivery is not. *)
Theorem chunk_after_done_in_same_delivery :
  let st := fresh (utf16 "hi") in
  let run := handleSubmit (JSON := Reference.json) (Decoder := Reference.utf8)
               (utf16 "u") (utf16 "a") in
  let together := Response true (Some
    [Resolved (Some (Reference.bytes
       "data: {'event':'done'}||data: {'event':'chunk','content':'X'}||"))
       false]) in
  let apart := Response true (Some
    [Resolved (Some (Reference.bytes "data: {'event':'done'}||")) false;
     Resolved (Some (Reference.bytes
       "data: {'event':'chunk','content':'X'}||")) false]) in
  interpret (JSON := Reference.json) (quoted "data: {'event':'done'}") = Done
  /\ chunks_applied (JSON := Reference.json) (Decoder := Reference.utf8)
       together = [utf16 "X"]
  /\ messages (state (run together st)) !! 2%nat
     = Some {| id := utf16 "a"; role := assistant; content := utf16 "X";
               skipContext := None |}
  /\ session_state (outcome (run together st)) = Completed
  /\ chunks_applied (JSON := Reference.json) (Decoder := Reference.utf8)
       apart = []
  /\ messages (state (run apart st)) !! 2%nat
     = Some {| id := utf16 "a"; role := assistant; content := [];
               skipContext := None |}.
Proof. cbv zeta. vm_compute. repeat split. Qed.

(** A submission made through the handler of a render that shows the
    streaming flag is a no-op: the state, and with it the transcript, is
    unchanged, no request is sent and the transport is not read, whatever it
    would deliver. *)
Theorem submission_while_streaming_is_ignored `{JSON : JsonRuntime}
    `{Decoder : TextDecoder} (userId assistantId : text) (net : FetchResult)
    (st : AppState) :
  isStreaming st = true ->
  handleSubmit userId assistantId net st
  = {| state := st; request := None; outcome := Ignored |}
  /\ messages (state (handleSubmit userId assistantId net st)) = messages st
  /\ (forall net', handleSubmit userId assistantId net' st
                   = handleSubmit userId assistantId net st).
Proof.
  intros Hstreaming. unfold handleSubmit, handleSubmit_of_render. rewrite Hstreaming, orb_true_r.
  done.
Qed.

(** A suspended session leaves the component streaming, whatever is typed
    into the input afterwards. *)
Lemma suspended_is_streaming `{JSON : JsonRuntime} `{Decoder : TextDecoder}
    (userId assistantId typed : text) (net : FetchResult) (st : AppState) :
  outcome (handleSubmit userId assistantId net st) = Suspended ->
  isStreaming
    (setInputValue typed (state (handleSubmit userId assistantId net st)))
  = true.
Proof.
  intros Hout.
  destruct (isStreaming st) eqn:Hidle.
  { unfold handleSubmit, handleSubmit_of_render in Hout. by rewrite Hidle, orb_true_r in Hout. }
  destruct (trim (inputValue st)) as [|c rest] eqn:Hin.
  { unfold handleSubmit, handleSubmit_of_render in Hout. by rewrite Hin in Hout. }
  revert Hout. rewrite handleSubmit_accepted by (by rewrite ?Hin).
  cbv zeta. by destruct (session_result net) as [e|[buffer|buffer d]].
Qed.

Lemma submission_while_streaming_is_ignored_witness :
  let st := fresh (utf16 "hi") in
  let first :=
    handleSubmit (JSON := Reference.json) (Decoder := Reference.utf8)
      (utf16 "u1") (utf16 "a1")
      (Response true (Some
         [Resolved (Some (Reference.bytes "data: {'event':'chunk','content':'Hel"))
            false])) st in
  let streaming := setInputValue (utf16 "again") (state first) in
  let second :=
    handleSubmit (JSON := Reference.json) (Decoder := Reference.utf8)
      (utf16 "u2") (utf16 "a2")
      (Response true (Some [Resolved None true])) streaming in
  outcome first = Suspended
  /\ second = {| state := streaming; request := None; outcome := Ignored |}
  /\ messages (state second) = messages (state first).
Proof.
  cbv zeta. split; [reflexivity|].
  destruct (submission_while_streaming_is_ignored (JSON := Reference.json)
              (Decoder := Reference.utf8) (utf16 "u2") (utf16 "a2")
              (Response true (Some [Resolved None true]))
              (setInputValue (utf16 "again")
                 (state (handleSubmit (JSON := Reference.json)
                           (Decoder := Reference.utf8)
                           (utf16 "u1") (utf16 "a1")
                           (Response true (Some
         [Resolved (Some (Reference.bytes "data: {'event':'chunk','content':'Hel"))
            false]))
                           (fresh (utf16 "hi"))))))
    as (H1 & H2 & _).
  - apply suspended_is_streaming. reflexivity.
  - split; [exact H1|exact H2].
Defined.

(** The guard of a handler tests what its render saw: the handler of a
    render that was idle and had input accepts every call, whatever state
    the component is in by then, and adds two messages to the transcript of
    that state. *)
Lemma handler_of_idle_render_accepts `{JSON : JsonRuntime}
    `{Decoder : TextDecoder} (rendered : AppState)
    (userId assistantId : text) (net : FetchResult) (st : AppState) :
  trim (inputValue rendered) <> [] -> isStreaming rendered = false ->
  let result := handleSubmit_of_render rendered userId assistantId net st in
  outcome result <> Ignored
  /\ request result
     = Some (request_messages (messages rendered)
               (new_user_message userId (trim (inputValue rendered))))
  /\ map id (messages (state result))
     = map id (messages st) ++ [userId; assistantId].
Proof.
  intros Hin Hidle. cbv zeta. unfold handleSubmit_of_render.
  rewrite (guard_passes _ Hin Hidle).
  rewrite stream_response_state.
  assert (forall value l, map id (append_to assistantId value l) = map id l)
    as Hids.
  { intros value l. unfold append_to. rewrite map_map. apply map_ext.
    intros m. by case_bool_decide. }
  destruct (session_result net) as [e|[buffer|buffer d]];
    cbn [outcome request state];
    (split; [done|split; [done|]]).
  - destruct (is_AbortError e);
      cbn [messages setMessages setErrorMessage setIsStreaming setInputValue];
      by rewrite Hids, map_app.
  - cbn [messages setMessages setErrorMessage setIsStreaming setInputValue].
    by rewrite Hids, map_app.
  - cbn [messages setMessages setErrorMessage setIsStreaming setInputValue].
    by rewrite Hids, map_app.
Qed.


(** C9.  Applying a chunk changes only the messages that carry the
    assistant id: the transcript keeps its length and the ids, roles and
    context flags of all its messages in their order; a message with another
    id is unchanged; a message with the assistant id keeps everything but
    its content, which is extended at its end by the chunk; and when ids are
    not repeated, every position but that of the active message is
    unchanged.  The other parts of the component state are unchanged. *)
Theorem append_chunk_touches_active_only (target value : text)
    (current : list Message) (st : AppState) :
  length (append_to target value current) = length current
  /\ map id (append_to target value current) = map id current
  /\ map role (append_to target value current) = map role current
  /\ map skipContext (append_to target value current)
     = map skipContext current
  /\ (forall i m, current !! i = Some m -> id m <> target ->
        append_to target value current !! i = Some m)
  /\ (forall i m, current !! i = Some m -> id m = target ->
        append_to target value current !! i
        = Some {| id := id m; role := role m; content := content m ++ value;
                  skipContext := skipContext m |})
  /\ (forall j active, NoDup (map id current) ->
        current !! j = Some active -> id active = target ->
        forall i, i <> j ->
          append_to target value current !! i = current !! i)
  /\ (let st' := setMessages (append_to target value) st in
      inputValue st' = inputValue st /\ isStreaming st' = isStreaming st
      /\ errorMessage st' = errorMessage st).
Proof.
  assert (forall (A : Type) (f : Message -> A),
            (forall m, f {| id := id m; role := role m;
                            content := content m ++ value;
                            skipContext := skipContext m |} = f m) ->
            map f (append_to target value current) = map f current) as Hmap.
  { intros A f Hf. unfold append_to. rewrite map_map. apply map_ext.
    intros m. by destruct (bool_decide _). }
  assert (forall i m, current !! i = Some m -> id m <> target ->
            append_to target value current !! i = Some m) as Hother.
  { intros i m Hi Hne. rewrite append_to_lookup, Hi. cbn.
    by rewrite bool_decide_eq_false_2. }
  repeat split.
  - unfold append_to. apply length_map.
  - by apply Hmap.
  - by apply Hmap.
  - by apply Hmap.
  - done.
  - intros i m Hi Heq. rewrite append_to_lookup, Hi. cbn.
    by rewrite bool_decide_eq_true_2.
  - intros j active Hnodup Hj Hactive i Hij.
    destruct (current !! i) as [m|] eqn:Hi.
    + apply (Hother i m Hi). intros Heq. apply Hij.
      apply (proj1 (NoDup_alt _) Hnodup i j (id m)).
      * by rewrite lookup_map, Hi.
      * rewrite lookup_map, Hj. cbn. congruence.
    + by rewrite append_to_lookup, Hi.
Qed.

Lemma append_chunk_touches_active_only_witness :
  let transcript :=
    initialMessages ++ [new_user_message (utf16 "u") (utf16 "hi");
                        {| id := utf16 "a"; role := assistant;
                           content := utf16 "Hel"; skipContext := None |}] in
  append_to (utf16 "a") (utf16 "lo") transcript !! 2%nat
  = Some {| id := utf16 "a"; role := assistant; content := utf16 "Hello";
            skipContext := None |}
  /\ append_to (utf16 "a") (utf16 "lo") transcript !! 1%nat
     = Some (new_user_message (utf16 "u") (utf16 "hi"))
  /\ append_to (utf16 "a") (utf16 "lo") transcript !! 0%nat
     = transcript !! 0%nat.
Proof.
  cbv zeta.
  destruct (append_chunk_touches_active_only (utf16 "a") (utf16 "lo")
              (initialMessages
                 ++ [new_user_message (utf16 "u") (utf16 "hi");
                     {| id := utf16 "a"; role := assistant;
                        content := utf16 "Hel"; skipContext := None |}])
              {| messages := []; inputValue := []; isStreaming := true;
                 errorMessage := None |})
    as (_ & _ & _ & _ & Hother & Hactive & Hunique & _).
  split; [|split].
  - exact (Hactive 2%nat
             {| id := utf16 "a"; role := assistant; content := utf16 "Hel";
                skipContext := None |} eq_refl eq_refl).
  - apply Hother; [reflexivity|by vm_compute].
  - apply (Hunique 2%nat
             {| id := utf16 "a"; role := assistant; content := utf16 "Hel";
                skipContext := None |}); [|reflexivity|reflexivity|lia].
    apply (bool_decide_unpack _). by vm_compute.
Defined.

Lemma in_context_flag m : in_context m = true <-> skipContext m <> Some true.
Proof.
  unfold in_context. destruct (skipContext m) as [[|]|]; cbn; split; done.
Qed.

Lemma filter_in_context_sublist (l : list Message) :
  List.filter in_context l `sublist_of` l.
Proof.
  induction l as [|m l IH]; cbn; [constructor|].
  destruct (in_context m); by constructor.
Qed.

(** C10.  A submission whose input is empty or only white space is a no-op.
    For an accepted submission the user message appended to the transcript
    holds the input without its leading and trailing white space, and the
    messages of the request are, in order, the role and content of the
    messages of the transcript and of the new user message that are not
    flagged as exempt from the context; with the initial transcript the
    request holds the user message alone. *)
Theorem submission_trims_input_and_filters_context `{JSON : JsonRuntime}
    `{Decoder : TextDecoder} (userId assistantId : text) (net : FetchResult)
    (st : AppState) :
  (blank (inputValue st) ->
   handleSubmit userId assistantId net st
   = {| state := st; request := None; outcome := Ignored |})
  /\ (outcome (handleSubmit userId assistantId net st) <> Ignored ->
      let result := handleSubmit userId assistantId net st in
      let trimmed := trim (inputValue st) in
      let userMessage :=
        {| id := userId; role := user; content := trimmed;
           skipContext := None |} in
      messages (state result)
      = append_to assistantId (concat (chunks_applied net))
          (messages st ++ [userMessage; new_assistant_message assistantId])
      /\ (userId <> assistantId ->
          messages (state result) !! length (messages st) = Some userMessage)
      /\ (exists leading trailing,
            inputValue st = leading ++ trimmed ++ trailing
            /\ blank leading /\ blank trailing)
      /\ (forall c rest, trimmed = c :: rest -> is_space c = false)
      /\ (forall c front, trimmed = front ++ [c] -> is_space c = false)
      /\ (exists kept,
            request result = Some (map (fun m => (role m, content m)) kept)
            /\ kept `sublist_of` (messages st ++ [userMessage])
            /\ forall m, m ∈ kept <->
                 m ∈ messages st ++ [userMessage]
                 /\ skipContext m <> Some true)
      /\ (messages st = initialMessages ->
          request result = Some [(user, trimmed)])).
Proof.
  split.
  - intros Hblank%trim_nil. unfold handleSubmit, handleSubmit_of_render. by rewrite Hblank.
  - intros Haccepted. cbv zeta.
    assert (trim (inputValue st) <> [] /\ isStreaming st = false)
      as [Hin Hidle].
    { unfold handleSubmit, handleSubmit_of_render in Haccepted.
      destruct (trim (inputValue st)); [done|].
      by destruct (isStreaming st). }
    split; [|split; [|split; [|split; [|split; [|split]]]]].
    + rewrite (handleSubmit_accepted _ _ _ _ Hin Hidle). cbv zeta.
      by destruct (session_result net) as [e|[buffer|buffer d]].
    + intros Hids.
      rewrite (handleSubmit_accepted _ _ _ _ Hin Hidle). cbv zeta.
      assert (forall v, append_to assistantId v
                (messages st ++ [new_user_message userId (trim (inputValue st));
                                 new_assistant_message assistantId])
                !! length (messages st)
              = Some (new_user_message userId (trim (inputValue st)))) as E.
      { intros v. rewrite append_to_lookup, lookup_app_r by lia.
        rewrite Nat.sub_diag. cbn. by rewrite bool_decide_eq_false_2. }
      destruct (session_result net) as [e|[buffer|buffer d]]; apply E.
    + apply trim_split.
    + apply trim_head.
    + apply trim_last.
    + exists (List.filter in_context
                (messages st
                   ++ [new_user_message userId (trim (inputValue st))])).
      split; [|split].
      * rewrite (handleSubmit_accepted _ _ _ _ Hin Hidle). cbv zeta.
        by destruct (session_result net) as [e|[buffer|buffer d]].
      * apply filter_in_context_sublist.
      * intros m. rewrite !list_elem_of_In, filter_In.
        by rewrite in_context_flag.
    + intros Hinit.
      rewrite (handleSubmit_accepted _ _ _ _ Hin Hidle). cbv zeta.
      rewrite Hinit.
      by destruct (session_result net) as [e|[buffer|buffer d]].
Qed.

Lemma submission_trims_input_and_filters_context_witness :
  let net := Response true (Some
    [Resolved (Some (Reference.bytes "data: {'event':'chunk','content':'Hi'}||")) false]) in
  let run := handleSubmit (JSON := Reference.json) (Decoder := Reference.utf8)
               (utf16 "u") (utf16 "a") net in
  let blank_input := {| messages := initialMessages; inputValue := [32; 10; 9];
                        isStreaming := false; errorMessage := None |} in
  let st := fresh (utf16 "  hello ") in
  run blank_input
  = {| state := blank_input; request := None; outcome := Ignored |}
  /\ messages (state (run st)) !! 1%nat
     = Some {| id := utf16 "u"; role := user; content := utf16 "hello";
               skipContext := None |}
  /\ request (run st) = Some [(user, utf16 "hello")].
Proof.
  cbv zeta. split.
  - apply (submission_trims_input_and_filters_context
             (JSON := Reference.json) (Decoder := Reference.utf8)).
    unfold blank. cbn [inputValue]. by repeat constructor.
  - destruct (submission_trims_input_and_filters_context
                (JSON := Reference.json) (Decoder := Reference.utf8)
                (utf16 "u") (utf16 "a")
                (Response true (Some
    [Resolved (Some (Reference.bytes "data: {'event':'chunk','content':'Hi'}||")) false]))
                (fresh (utf16 "  hello ")))
      as [_ H].
    destruct H as (_ & H2 & _ & _ & _ & _ & H7); [by vm_compute|].
    split.
    + exact (H2 ltac:(by vm_compute)).
    + exact (H7 eq_refl).
Defined.

(** * The scenarios of the design, run on the reference runtime *)

(** A frame split over two deliveries is put together and its chunk
    appended. *)
Example scenario_split_frame :
  let net := Response true (Some
    [Resolved (Some (Reference.bytes "data: {'event':'chunk','content':'Hel")) false;
     Resolved (Some (Reference.bytes "lo'}||")) false]) in
  chunks_applied (JSON := Reference.json) (Decoder := Reference.utf8) net
  = [utf16 "Hello"]
  /\ active (run net) = Some (utf16 "Hello")
  /\ session_state (outcome (run net)) = Streaming.
Proof. by vm_compute. Qed.

(** A chunk and then a done event. *)
Example scenario_chunk_then_done :
  let net := Response true (Some
    [Resolved (Some (Reference.bytes "data: {'event':'chunk','content':'Hi'}||")) false;
     Resolved (Some (Reference.bytes "data: {'event':'done'}||")) false]) in
  active (run net) = Some (utf16 "Hi")
  /\ session_state (outcome (run net)) = Completed
  /\ isStreaming (state (run net)) = false
  /\ errorMessage (state (run net)) = None.
Proof. by vm_compute. Qed.

(** An error reported by the service. *)
Example scenario_upstream_error :
  let net := Response true (Some
    [Resolved (Some (Reference.bytes "data: {'event':'error','content':'overloaded'}||")) false]) in
  session_state (outcome (run net)) = Failed
  /\ errorMessage (state (run net)) = Some (Literal (utf16 "overloaded")).
Proof. by vm_compute. Qed.

(** A cancellation after one chunk. *)
Example scenario_cancelled :
  let net := Response true (Some
    [Resolved (Some (Reference.bytes "data: {'event':'chunk','content':'Hi'}||")) false;
     Rejected AbortError]) in
  active (run net) = Some (utf16 "Hi")
  /\ session_state (outcome (run net)) = Cancelled
  /\ errorMessage (state (run net))
     = Some (Literal (utf16 "Generation cancelled.")).
Proof. by vm_compute. Qed.

(** A response that is not a success, a response without body, and a failed
    fetch. *)
Example scenario_transport_failure :
  session_state (outcome (run (Response false (Some [])))) = Failed
  /\ errorMessage (state (run (Response false (Some []))))
     = Some (Literal (utf16 "Unable to connect to the assistant."))
  /\ errorMessage (state (run (Response true None)))
     = Some (Literal (utf16 "Unable to connect to the assistant."))
  /\ session_state
       (outcome (run (FetchRejected (NetworkError (utf16 "Failed to fetch")))))
     = Failed.
Proof. by vm_compute. Qed.

(** A character of two bytes (U+00E9) cut by a delivery boundary. *)
Example scenario_character_across_deliveries :
  frames (Decoder := Reference.utf8) [[x61; xc3]; [xa9; x0a]; [x0a; x62]]
  = [[97; 233]; [98]]
  /\ frames (Decoder := Reference.utf8) [[x61; xc3; xa9; x0a; x0a; x62]]
     = [[97; 233]; [98]].
Proof. by vm_compute. Qed.

(** * Further properties of the code *)

(** ** Frames and their data line *)

Lemma find_none_Forall {A} (f : A -> bool) (l : list A) :
  Forall (fun x => f x = false) l -> find f l = None.
Proof.
  induction 1 as [|x l Hx _ IH]; [done|]. cbn [find]. by rewrite Hx.
Qed.

Lemma find_first_match {A} (f : A -> bool) (before after : list A) (x : A) :
  Forall (fun y => f y = false) before -> f x = true ->
  find f (before ++ x :: after) = Some x.
Proof.
  induction 1 as [|y l Hy _ IH]; intros Hx; cbn [find app].
  - by rewrite Hx.
  - rewrite Hy. by apply IH.
Qed.

(** X1.  A frame none of whose lines starts with [data:] (a comment, a keep-alive,
    an [event:] or [id:] field alone, the empty frame) is ignored whatever
    the runtime: [processEvent] returns false, calls no callback and throws
    nothing. *)
Theorem frame_without_data_line_is_ignored `{JSON : JsonRuntime}
    (frame : text) :
  Forall (fun line => startsWith (utf16 "data:") line = false)
         (split [LF] frame) ->
  interpret frame = NoEvent
  /\ forall S (appendChunk : text -> M S unit) (st : S),
       processEvent frame appendChunk st = (st, inr false).
Proof.
  intros Hlines.
  assert (interpret frame = NoEvent) as Hev.
  { unfold interpret. by rewrite (find_none_Forall _ _ Hlines). }
  split; [done|]. intros S appendChunk st.
  by rewrite processEvent_interpret, Hev.
Qed.

Lemma frame_without_data_line_is_ignored_witness :
  processEvent (JSON := Reference.json)
    (utf16 ": keep-alive" ++ [LF] ++ utf16 "event: ping") record_chunk []
  = ([], inr false)
  /\ processEvent (JSON := Reference.json) [] record_chunk [] = ([], inr false).
Proof.
  split.
  - apply (frame_without_data_line_is_ignored (JSON := Reference.json)).
    vm_compute. by repeat constructor.
  - apply (frame_without_data_line_is_ignored (JSON := Reference.json)).
    vm_compute. by repeat constructor.
Defined.

Lemma line_is_its_own_split line :
  ~ occurs [LF] line -> split [LF] line = [line].
Proof. by apply split_no_occurrence. Qed.

(** X2.  Only the first line that starts with [data:] is interpreted: the lines
    before it and all the lines after it, further [data:] lines included,
    have no effect; the frame acts as that line alone. *)
Theorem only_first_data_line_counts `{JSON : JsonRuntime}
    (frame dataLine : text) (before after : list text) :
  split [LF] frame = before ++ dataLine :: after ->
  Forall (fun line => startsWith (utf16 "data:") line = false) before ->
  startsWith (utf16 "data:") dataLine = true ->
  interpret frame = interpret dataLine
  /\ forall S (appendChunk : text -> M S unit) (st : S),
       processEvent frame appendChunk st
       = processEvent dataLine appendChunk st.
Proof.
  intros Hsplit Hbefore Hdata.
  assert (interpret frame = interpret dataLine) as Hev.
  { assert (~ occurs [LF] dataLine) as Hfree.
    { apply (split_segments_free [LF] frame); [done|].
      rewrite Hsplit. apply elem_of_app. right. by left. }
    unfold interpret.
    rewrite Hsplit, (find_first_match _ _ _ _ Hbefore Hdata).
    rewrite (line_is_its_own_split _ Hfree). cbn [find]. by rewrite Hdata. }
  split; [done|]. intros S appendChunk st.
  by rewrite !processEvent_interpret, Hev.
Qed.

Lemma only_first_data_line_counts_witness :
  let first := quoted "data: {'event':'chunk','content':'A'}" in
  let frame :=
    utf16 "event: message" ++ [LF] ++ first ++ [LF]
    ++ quoted "data: {'event':'chunk','content':'B'}" in
  interpret (JSON := Reference.json) frame = Chunk (utf16 "A").
Proof.
  cbv zeta.
  refine (eq_trans
    (proj1 (only_first_data_line_counts (JSON := Reference.json)
              _ (quoted "data: {'event':'chunk','content':'A'}")
              [utf16 "event: message"]
              [quoted "data: {'event':'chunk','content':'B'}"] _ _ _))
    eq_refl).
  - reflexivity.
  - by repeat constructor.
  - reflexivity.
Defined.

Lemma trimStart_blank_app ws s : blank ws -> trimStart (ws ++ s) = trimStart s.
Proof.
  induction 1 as [|c ws Hc _ IH]; [done|]. cbn [app trimStart].
  by rewrite Hc.
Qed.

Lemma no_LF_no_occurrence s : LF ∉ s -> ~ occurs [LF] s.
Proof.
  intros Hno (x & y & ->). apply Hno.
  apply elem_of_app. right. by left.
Qed.

(** X3.  The white space between [data:] and the payload does not matter, and
    neither does its absence: on a line, [data:] followed by any run of
    white space and the payload is interpreted as [data:] followed by the
    payload at once. *)
Theorem data_prefix_spacing_is_irrelevant `{JSON : JsonRuntime}
    (spaces payload : text) :
  blank spaces -> LF ∉ spaces -> LF ∉ payload ->
  strip_data_prefix (utf16 "data:" ++ spaces ++ payload) = trimStart payload
  /\ interpret (utf16 "data:" ++ spaces ++ payload)
     = interpret (utf16 "data:" ++ payload).
Proof.
  intros Hblank Hspaces Hpayload.
  assert (forall rest, strip_data_prefix (utf16 "data:" ++ rest)
                       = trimStart rest) as Hstrip.
  { intros rest. unfold strip_data_prefix.
    by rewrite startsWith_app, drop_app_length'. }
  assert (forall rest, LF ∉ rest ->
            interpret (utf16 "data:" ++ rest)
            = match JSON_parse (trimStart rest) with
              | None => Raise (SyntaxError (trimStart rest))
              | Some payload => interpret_payload payload
              end) as Hline.
  { intros rest Hrest. unfold interpret.
    rewrite line_is_its_own_split.
    - cbn [find]. rewrite startsWith_app. by rewrite Hstrip.
    - apply no_LF_no_occurrence. rewrite elem_of_app.
      intros [Hin|Hin]; [|done]. vm_compute in Hin.
      repeat (apply elem_of_cons in Hin as [Hin|Hin]; [done|]).
      by apply elem_of_nil in Hin. }
  split.
  - by rewrite Hstrip, trimStart_blank_app.
  - rewrite !Hline; [by rewrite trimStart_blank_app|done|].
    rewrite elem_of_app. by intros [?|?].
Qed.

Lemma data_prefix_spacing_is_irrelevant_witness :
  interpret (JSON := Reference.json)
    (utf16 "data:" ++ [32; 9; 32] ++ quoted "{'event':'done'}")
  = interpret (JSON := Reference.json)
      (utf16 "data:" ++ quoted "{'event':'done'}").
Proof.
  apply (data_prefix_spacing_is_irrelevant (JSON := Reference.json)).
  - by repeat constructor.
  - by apply (bool_decide_unpack _).
  - by apply (bool_decide_unpack _).
Defined.

(** ** Where the exception that ends a session comes from *)

Section Failures.
Context `{JSON : JsonRuntime} `{Decoder : TextDecoder}.

(** The exceptions [processEvent] can throw. *)
Lemma interpret_raise frame e :
  interpret frame = Raise e ->
  (exists source, e = SyntaxError source)
  \/ e = TypeError_null (utf16 "event")
  \/ (exists s, e = Error s /\ s <> [])
  \/ (exists v, e = Error_of_value v /\ ToBoolean v = true).
Proof.
  unfold interpret.
  destruct (find _ _) as [[|c dataLine]|]; [done| |done].
  destruct (JSON_parse _) as [payload|]; [|intros [= <-]; left; by eexists].
  destruct payload as [| | | | |fields]; try done.
  { intros [= <-]. by right; left. }
  cbn [interpret_payload].
  destruct (own_property (utf16 "event") fields) as [[| | |kind| |]|];
    try done.
  destruct (bool_decide (kind = utf16 "chunk")).
  { by destruct (own_property (utf16 "content") fields) as [[| | | | |]|]. }
  destruct (bool_decide (kind = utf16 "error"));
    [|by destruct (bool_decide (kind = utf16 "done"))].
  intros [= <-]. right; right. unfold error_of_content.
  destruct (own_property (utf16 "content") fields) as [v|];
    [|left; by eexists].
  destruct v as [|b|m x|s|items|fs].
  - left. by eexists.
  - destruct (ToBoolean (JBool b)) eqn:E; [right|left]; by eexists.
  - destruct (ToBoolean (JNum m x)) eqn:E; [right|left]; by eexists.
  - left. case_bool_decide; [by eexists|]. by exists s.
  - right. by eexists.
  - right. by eexists.
Qed.

Lemma for_segments_throws segments doneSignal applied applied' e :
  for_segments (fun x => processEvent x record_chunk) segments doneSignal
    applied = (applied', inl e) ->
  exists frame, interpret frame = Raise e.
Proof.
  revert doneSignal applied.
  induction segments as [|x l IH]; intros doneSignal applied; [done|].
  cbn [for_segments]. unfold mbind, M_bind.
  rewrite processEvent_interpret.
  destruct (interpret x) as [|value| |e'] eqn:Hx; cbn; try apply IH.
  intros [= _ <-]. by exists x.
Qed.

Lemma read_loop_throws reads d buffer doneSignal applied applied' e :
  read_loop (fun x => processEvent x record_chunk) reads d buffer doneSignal
    applied = (applied', inl e) ->
  Rejected e ∈ reads \/ exists frame, interpret frame = Raise e.
Proof.
  revert d buffer doneSignal applied.
  induction reads as [|r reads IH]; intros d buffer doneSignal applied.
  - by destruct doneSignal.
  - cbn [read_loop]. destruct doneSignal; [done|].
    destruct r as [value fin|e'].
    2:{ intros [= _ <-]. left. by left. }
    destruct (decode d (default [] value) (negb fin)) as [d1 decoded].
    destruct (pop (split [LF; LF] (buffer ++ decoded))) as [segments popped].
    unfold mbind, M_bind.
    destruct (for_segments _ segments false applied) as [s1 [e1|b]] eqn:Hfor.
    { intros [= _ <-]. right. by eapply for_segments_throws. }
    destruct fin.
    + destruct (negb _); [|done].
      rewrite processEvent_interpret.
      destruct (interpret (default [] popped)) as [|value'| |e'] eqn:Hlast;
        cbn; try done.
      intros [= _ <-]. right. by eexists.
    + intros H. destruct (IH _ _ _ _ H) as [Hin|Hframe]; [|by right].
      left. by right.
Qed.

(** A session ends with an exception only if the transport delivered that
    exception, or the response was not usable, or a frame raised it. *)
Lemma session_failure_origin net e :
  session_result net = inl e ->
  e ∈ rejections net
  \/ e = Error (utf16 "Unable to connect to the assistant.")
  \/ exists frame, interpret frame = Raise e.
Proof.
  unfold session_result. destruct net as [e'|ok body]; cbn [stream_response].
  - intros [= <-]. left. by left.
  - destruct ok, body as [reads|]; cbn; try (intros [= <-]; by right; left).
    destruct (read_loop _ reads _ _ _ _) as [applied r] eqn:Hloop.
    cbn. intros ->.
    destruct (read_loop_throws _ _ _ _ _ _ _ Hloop) as [Hin|Hframe];
      [|by right; right].
    left. apply list_elem_of_omap. by exists (Rejected e).
Qed.
End Failures.

Lemma accepted_of_outcome `{JSON : JsonRuntime} `{Decoder : TextDecoder}
    userId assistantId net st :
  outcome (handleSubmit userId assistantId net st) <> Ignored ->
  trim (inputValue st) <> [] /\ isStreaming st = false.
Proof.
  unfold handleSubmit, handleSubmit_of_render. destruct (trim (inputValue st)); [done|].
  by destruct (isStreaming st).
Qed.

(** X4.  The cancellation notice is shown only for an abort delivered by the
    transport: whatever frames the service sends, a session never ends in
    the cancelled state unless the fetch or a read was rejected with
    AbortError. *)
Theorem cancelled_only_by_transport_abort `{JSON : JsonRuntime}
    `{Decoder : TextDecoder} (userId assistantId : text) (net : FetchResult)
    (st : AppState) :
  session_state (outcome (handleSubmit userId assistantId net st))
  = Cancelled ->
  AbortError ∈ rejections net
  /\ errorMessage (state (handleSubmit userId assistantId net st))
     = Some (Literal (utf16 "Generation cancelled.")).
Proof.
  intros Hcancelled.
  destruct (accepted_of_outcome userId assistantId net st) as [Hin Hidle].
  { intros E. by rewrite E in Hcancelled. }
  revert Hcancelled. rewrite (handleSubmit_accepted _ _ _ _ Hin Hidle).
  cbv zeta.
  destruct (session_result net) as [e|[buffer|buffer d]] eqn:Hresult;
    try done.
  cbn [outcome session_state state errorMessage].
  destruct e; try done. intros _. split; [|done].
  destruct (session_failure_origin _ _ Hresult) as [?|[?|[frame Hframe]]];
    [done|done|].
  apply interpret_raise in Hframe.
  destruct Hframe as [[? ?]|[?|[(? & ? & ?)|(? & ? & ?)]]]; done.
Qed.

Lemma cancelled_only_by_transport_abort_witness :
  AbortError ∈ rejections (Response true (Some
    [Resolved (Some (Reference.bytes "data: {'event':'chunk','content':'Hi'}||")) false;
     Rejected AbortError])).
Proof.
  apply (cancelled_only_by_transport_abort (JSON := Reference.json)
           (Decoder := Reference.utf8) (utf16 "u") (utf16 "a") _
           (fresh (utf16 "hi"))).
  reflexivity.
Defined.

(** X5.  The message of a failed session can be the empty string, for which
    the view renders no alert, in one way only: an error event whose content
    is an array that converts to the empty text, such as the empty array.
    Provided the exceptions of the transport itself carry a message (and the
    messages the engine gives its own exceptions and the text it renders a
    number as being what they are, not empty), no other frame can make an
    accepted submission end with an empty message. *)
Theorem empty_failure_notice_needs_array_content `{JSON : JsonRuntime}
    `{Decoder : TextDecoder} (userId assistantId : text) (net : FetchResult)
    (st : AppState) :
  (forall e, e ∈ rejections net -> message e <> Literal []) ->
  outcome (handleSubmit userId assistantId net st) <> Ignored ->
  errorMessage (state (handleSubmit userId assistantId net st))
  = Some (Literal []) ->
  exists items,
    outcome (handleSubmit userId assistantId net st)
    = Caught (Error_of_value (JArr items))
    /\ ToString (JArr items) = Some [].
Proof.
  intros Htransport Haccepted.
  destruct (accepted_of_outcome _ _ _ _ Haccepted) as [Hin Hidle].
  rewrite (handleSubmit_accepted _ _ _ _ Hin Hidle). cbv zeta.
  destruct (session_result net) as [e|[buffer|buffer d]] eqn:Hresult;
    try done.
  cbn [state errorMessage outcome]. destruct (is_AbortError e); [done|].
  intros [= Hmessage].
  destruct (session_failure_origin _ _ Hresult) as [Hin'|[->|[frame Hframe]]].
  - by destruct (Htransport e).
  - done.
  - apply interpret_raise in Hframe.
    destruct Hframe as [[? ->]|[->|[(s & -> & Hs)|(v & -> & Hv)]]]; try done.
    { cbn in Hmessage. congruence. }
    cbn [message] in Hmessage.
    destruct (ToString v) as [m|] eqn:Hstring; [|done].
    injection Hmessage as ->.
    destruct v as [|b|m x|s|items|fields]; try done.
    + by destruct b.
    + cbn in Hstring, Hv. injection Hstring as ->.
      by rewrite bool_decide_eq_true_2 in Hv.
    + by exists items.
    + cbn in Hstring. by destruct (own_property _ fields).
Qed.

Lemma empty_failure_notice_needs_array_content_witness :
  let net := Response true (Some
    [Resolved (Some (Reference.bytes "data: {'event':'error','content':[]}||"))
       false]) in
  errorMessage (state (run net)) = Some (Literal [])
  /\ exists items,
       outcome (run net) = Caught (Error_of_value (JArr items))
       /\ ToString (JArr items) = Some [].
Proof.
  cbv zeta. split; [by vm_compute|].
  apply (empty_failure_notice_needs_array_content (JSON := Reference.json)
           (Decoder := Reference.utf8)).
  - intros e Hin. vm_compute in Hin. by apply elem_of_nil in Hin.
  - by vm_compute.
  - by vm_compute.
Defined.

(** ** The streaming flag and the end of a session *)

(** X6.  The finally clause resets the streaming flag on every exit path: after
    a call of [handleSubmit] the component is streaming exactly when the
    call is suspended at a read (or was ignored because a session was
    streaming already).  So a session that has completed, failed or been
    cancelled never locks the form: the next input that is not blank is
    accepted. *)
Theorem streaming_flag_follows_suspension `{JSON : JsonRuntime}
    `{Decoder : TextDecoder} (userId assistantId : text) (net : FetchResult)
    (st : AppState) :
  let result := handleSubmit userId assistantId net st in
  (isStreaming (state result) = true <->
   outcome result = Suspended
   \/ outcome result = Ignored /\ isStreaming st = true)
  /\ (forall typed userId' assistantId' net',
        outcome result = Returned \/ (exists e, outcome result = Caught e) ->
        trim typed <> [] ->
        outcome (handleSubmit userId' assistantId' net'
                   (setInputValue typed (state result))) <> Ignored).
Proof.
  cbv zeta.
  assert (outcome (handleSubmit userId assistantId net st) = Ignored
          \/ outcome (handleSubmit userId assistantId net st) <> Ignored)
    as [Hignored|Haccepted]
    by (destruct (outcome _); [by left|by right..]).
  - assert (handleSubmit userId assistantId net st
            = {| state := st; request := None; outcome := Ignored |}) as ->.
    { revert Hignored. unfold handleSubmit, handleSubmit_of_render. destruct (_ || _); [done|].
      by destruct (stream_response _ net _) as [? [?|[?|? ?]]]. }
    cbn [state outcome]. split; [|by intros ? ? ? ? [?|[? ?]]].
    split; [by right|]. by intros [?|[_ ?]].
  - destruct (accepted_of_outcome _ _ _ _ Haccepted) as [Hin Hidle].
    rewrite (handleSubmit_accepted _ _ _ _ Hin Hidle). cbv zeta.
    destruct (session_result net) as [e|[buffer|buffer d]];
      cbn [state outcome isStreaming]; (split; [split|]).
    all: try by (intros [?|[? ?]]).
    all: try by (intros; left).
    all: try done.
    all: try by intros ? ? ? ? [?|[? ?]].
    all: intros typed userId' assistantId' net' _ Htyped;
      unfold handleSubmit, handleSubmit_of_render; cbn [inputValue isStreaming setInputValue];
      destruct (trim typed); [done|]; cbn;
      by destruct (stream_response _ net' _) as [? [?|[?|? ?]]].
Qed.

Lemma streaming_flag_follows_suspension_witness :
  let failed := run (Response false None) in
  isStreaming (state failed) = false
  /\ outcome (handleSubmit (JSON := Reference.json)
                (Decoder := Reference.utf8) (utf16 "u2") (utf16 "a2")
                (Response true (Some []))
                (setInputValue (utf16 "again") (state failed))) <> Ignored.
Proof.
  cbv zeta.
  destruct (streaming_flag_follows_suspension (JSON := Reference.json)
              (Decoder := Reference.utf8) (utf16 "u") (utf16 "a")
              (Response false None) (fresh (utf16 "hi"))) as [_ H].
  split; [reflexivity|].
  apply H; [|by vm_compute].
  right. by eexists.
Defined.

Section Settled.
Context `{Decoder : TextDecoder} {S : Type}.
Variable h : text -> M S bool.

(** A loop that has run to its end or thrown takes no notice of reads that
    arrive later. *)
Lemma read_loop_settled reads extra d buffer doneSignal s s' r :
  read_loop h reads d buffer doneSignal s = (s', r) ->
  (forall buffer' d', r <> inr (Awaiting buffer' d')) ->
  read_loop h (reads ++ extra) d buffer doneSignal s = (s', r).
Proof.
  revert d buffer doneSignal s.
  induction reads as [|x reads IH]; intros d buffer doneSignal s Hloop Hr.
  - destruct doneSignal.
    + by rewrite read_loop_flagged.
    + cbn in Hloop. injection Hloop as <- <-. by destruct (Hr buffer d).
  - revert Hloop. cbn [read_loop app]. destruct doneSignal; [done|].
    destruct x as [value fin|e]; [|done].
    destruct (decode d (default [] value) (negb fin)) as [d1 decoded].
    destruct (pop (split [LF; LF] (buffer ++ decoded))) as [segments popped].
    unfold mbind, M_bind.
    destruct (for_segments h segments false s) as [s1 [e|b]]; [done|].
    destruct fin; [done|]. intros Hloop. by apply IH.
Qed.
End Settled.

(** X7.  Once a session has completed, failed or been cancelled, what the
    transport delivers afterwards changes nothing: the result of the call is
    the same with any further reads appended. *)
Theorem settled_session_ignores_later_reads `{JSON : JsonRuntime}
    `{Decoder : TextDecoder} (userId assistantId : text) (ok : bool)
    (reads extra : list ReadResult) (st : AppState) :
  outcome (handleSubmit userId assistantId (Response ok (Some reads)) st)
  <> Suspended ->
  handleSubmit userId assistantId (Response ok (Some (reads ++ extra))) st
  = handleSubmit userId assistantId (Response ok (Some reads)) st.
Proof.
  unfold handleSubmit, handleSubmit_of_render. destruct (_ || _); [done|].
  cbn [stream_response]. destruct ok; [|done].
  destruct (read_loop _ reads _ _ _ _) as [s' r] eqn:Hloop.
  intros Hsettled.
  rewrite (read_loop_settled _ _ extra _ _ _ _ _ _ Hloop); [done|].
  intros buffer' d' ->. by apply Hsettled.
Qed.

Lemma settled_session_ignores_later_reads_witness :
  let first :=
    [Resolved (Some (Reference.bytes "data: {'event':'done'}||")) false] in
  let later :=
    [Resolved (Some (Reference.bytes "data: {'event':'chunk','content':'X'}||"))
       false; Rejected AbortError] in
  run (Response true (Some (first ++ later)))
  = run (Response true (Some first)).
Proof.
  cbv zeta.
  apply (settled_session_ignores_later_reads (JSON := Reference.json)
           (Decoder := Reference.utf8)).
  by vm_compute.
Defined.

(** ** The transcript over the turns *)

Lemma accepted_transcript `{JSON : JsonRuntime} `{Decoder : TextDecoder}
    userId assistantId net st :
  outcome (handleSubmit userId assistantId net st) <> Ignored ->
  messages (state (handleSubmit userId assistantId net st))
  = append_to assistantId (concat (chunks_applied net))
      (messages st ++ [new_user_message userId (trim (inputValue st));
                       new_assistant_message assistantId]).
Proof.
  intros [Hin Hidle]%accepted_of_outcome.
  rewrite (handleSubmit_accepted _ _ _ _ Hin Hidle). cbv zeta.
  by destruct (session_result net) as [e|[buffer|buffer d]].
Qed.

Lemma append_to_map {A} (f : Message -> A) target value current :
  (forall m, f {| id := id m; role := role m; content := content m ++ value;
                  skipContext := skipContext m |} = f m) ->
  map f (append_to target value current) = map f current.
Proof.
  intros Hf. unfold append_to. rewrite map_map. apply map_ext.
  intros m. by destruct (bool_decide _).
Qed.

Lemma append_to_fresh target value current :
  target ∉ map id current -> append_to target value current = current.
Proof.
  unfold append_to. induction current as [|m l IH]; [done|].
  cbn [map]. intros Hfresh. apply not_elem_of_cons in Hfresh as [Hm Hl].
  rewrite IH by done. by rewrite bool_decide_eq_false_2.
Qed.

Lemma append_to_app target value l1 l2 :
  append_to target value (l1 ++ l2)
  = append_to target value l1 ++ append_to target value l2.
Proof. unfold append_to. apply map_app. Qed.

(** X8.  An accepted submission adds exactly two messages at the end of the
    transcript, the user's and the assistant's, in this order, with the two
    new ids.  When the assistant id is new, the messages that were there stay
    as they were, whatever is streamed; and when both ids are new and
    distinct, the ids of the transcript, which the view uses as keys, stay
    pairwise distinct. *)
Theorem transcript_grows_by_one_exchange `{JSON : JsonRuntime}
    `{Decoder : TextDecoder} (userId assistantId : text) (net : FetchResult)
    (st : AppState) :
  outcome (handleSubmit userId assistantId net st) <> Ignored ->
  let after := messages (state (handleSubmit userId assistantId net st)) in
  map id after = map id (messages st) ++ [userId; assistantId]
  /\ map role after = map role (messages st) ++ [user; assistant]
  /\ (assistantId ∉ map id (messages st) ->
      take (length (messages st)) after = messages st)
  /\ (NoDup (map id (messages st)) ->
      userId ∉ map id (messages st) ->
      assistantId ∉ map id (messages st) ->
      userId <> assistantId ->
      NoDup (map id after)).
Proof.
  intros Haccepted. cbv zeta. rewrite (accepted_transcript _ _ _ _ Haccepted).
  assert (map id (append_to assistantId (concat (chunks_applied net))
                    (messages st
                       ++ [new_user_message userId (trim (inputValue st));
                           new_assistant_message assistantId]))
          = map id (messages st) ++ [userId; assistantId]) as Hids.
  { rewrite append_to_map by done. by rewrite map_app. }
  split; [done|]. split; [|split].
  - rewrite append_to_map by done. by rewrite map_app.
  - intros Hfresh. rewrite append_to_app, (append_to_fresh _ _ _ Hfresh).
    by rewrite take_app_length.
  - intros Hnodup Huser Hassistant Hne. rewrite Hids.
    apply NoDup_app. split; [done|]. split.
    + intros x Hx [->|[->|[]%elem_of_nil]%elem_of_cons]%elem_of_cons; done.
    + apply NoDup_cons. split; [|apply NoDup_singleton].
      by intros ->%list_elem_of_singleton.
Qed.

Lemma transcript_grows_by_one_exchange_witness :
  let net := Response true (Some
    [Resolved (Some (Reference.bytes "data: {'event':'chunk','content':'Hi'}||"))
       false]) in
  map id (messages (state (run net)))
  = [utf16 "welcome"; utf16 "u"; utf16 "a"]
  /\ take 1 (messages (state (run net))) = initialMessages
  /\ NoDup (map id (messages (state (run net)))).
Proof.
  cbv zeta.
  destruct (transcript_grows_by_one_exchange (JSON := Reference.json)
              (Decoder := Reference.utf8) (utf16 "u") (utf16 "a")
              (Response true (Some
    [Resolved (Some (Reference.bytes "data: {'event':'chunk','content':'Hi'}||"))
       false]))
              (fresh (utf16 "hi"))) as (H1 & _ & H3 & H4); [by vm_compute|].
  split; [exact H1|]. split.
  - apply H3. by apply (bool_decide_unpack _).
  - apply H4; by apply (bool_decide_unpack _).
Defined.

(** X9.  The request of the second turn carries the first exchange: the user's
    trimmed text and the reply as far as it was accumulated -- also when the
    first session failed or was cancelled, and then possibly empty --
    followed by the new user message; the greeting is never sent. *)
Theorem next_request_carries_previous_exchange `{JSON : JsonRuntime}
    `{Decoder : TextDecoder} (userId1 assistantId1 typed1 : text)
    (net1 : FetchResult) (userId2 assistantId2 typed2 : text)
    (net2 : FetchResult) :
  trim typed1 <> [] -> trim typed2 <> [] -> userId1 <> assistantId1 ->
  outcome (handleSubmit userId1 assistantId1 net1 (fresh typed1))
  <> Suspended ->
  let first := handleSubmit userId1 assistantId1 net1 (fresh typed1) in
  request (handleSubmit userId2 assistantId2 net2
             (setInputValue typed2 (state first)))
  = Some [(user, trim typed1);
          (assistant, concat (chunks_applied net1));
          (user, trim typed2)].
Proof.
  intros Htyped1 Htyped2 Hids. cbv zeta.
  rewrite (handleSubmit_accepted userId1 assistantId1 net1 (fresh typed1))
    by done.
  cbv zeta. cbn [fresh messages inputValue].
  assert (request_messages
            (append_to assistantId1 (concat (chunks_applied net1))
               (initialMessages
                  ++ [new_user_message userId1 (trim typed1);
                      new_assistant_message assistantId1]))
            (new_user_message userId2 (trim typed2))
          = [(user, trim typed1);
             (assistant, concat (chunks_applied net1));
             (user, trim typed2)]) as Hrequest.
  { unfold request_messages, append_to, initialMessages, new_user_message,
      new_assistant_message.
    cbn [map app id role content skipContext].
    rewrite (bool_decide_eq_false_2 (userId1 = assistantId1)) by done.
    rewrite (bool_decide_eq_true_2 (assistantId1 = assistantId1)) by done.
    by destruct (bool_decide (utf16 "welcome" = assistantId1)). }
  destruct (session_result net1) as [e|[buffer|buffer d]]; [| |done];
    intros _;
    (rewrite handleSubmit_accepted;
     [cbv zeta; cbn [state setInputValue messages inputValue]; rewrite Hrequest;
      by destruct (session_result net2) as [?|[?|? ?]]
     |done|done]).
Qed.

Lemma next_request_carries_previous_exchange_witness :
  let failed := Response true (Some
    [Resolved (Some (Reference.bytes "data: {'event':'chunk','content':'Par'}||"))
       false; Rejected (NetworkError (utf16 "network error"))]) in
  request (handleSubmit (JSON := Reference.json) (Decoder := Reference.utf8)
             (utf16 "u2") (utf16 "a2") (Response true (Some []))
             (setInputValue (utf16 "and then?") (state (run failed))))
  = Some [(user, utf16 "hi"); (assistant, utf16 "Par");
          (user, utf16 "and then?")].
Proof.
  cbv zeta.
  refine (eq_trans
    (next_request_carries_previous_exchange (JSON := Reference.json)
       (Decoder := Reference.utf8) (utf16 "u") (utf16 "a") (utf16 "hi") _
       (utf16 "u2") (utf16 "a2") (utf16 "and then?") _ _ _ _ _) eq_refl);
    by vm_compute.
Defined.

(** ** The frames of a whole stream *)

Lemma not_existsb_blank s :
  existsb (fun c => negb (is_space c)) s = false -> blank s.
Proof.
  intros H. apply trim_nil. rewrite <- trim_length_test in H.
  by destruct (trim s).
Qed.

(** X10.  The reassembler loses nothing but a blank tail: the frames of a complete
    stream, joined by blank lines, give back the decoded text of the stream,
    up to a last segment of white space only that is dropped; and no frame
    holds a blank line. *)
Theorem frames_lose_only_a_blank_tail `{Decoder : TextDecoder}
    (chunks : list (list byte)) :
  (join blank_line (frames chunks) = decode_all (concat chunks)
   \/ exists tail,
        blank tail
        /\ join blank_line (frames chunks ++ [tail])
           = decode_all (concat chunks))
  /\ forall frame, frame ∈ frames chunks -> ~ occurs blank_line frame.
Proof.
  rewrite frames_whole.
  pose proof (whole_stream_frames_eq [] (decode_all (concat chunks))) as E.
  cbn [app] in E. rewrite E.
  pose proof (spec_on_chunk_segments [] (decode_all (concat chunks))) as Hsegs.
  cbn [app] in Hsegs.
  pose proof (join_split blank_line (decode_all (concat chunks))) as Hjoin.
  rewrite <- Hsegs in Hjoin.
  assert (forall frame,
            frame ∈ (spec_on_chunk [] (decode_all (concat chunks))).1
                    ++ [(spec_on_chunk [] (decode_all (concat chunks))).2] ->
            ~ occurs blank_line frame) as Hfree.
  { intros frame. rewrite Hsegs. by apply split_segments_free. }
  unfold spec_on_end.
  destruct (existsb _ _) eqn:Hlast.
  - split; [left; by apply Hjoin|done].
  - split.
    + right. eexists. split; [by apply not_existsb_blank|].
      rewrite app_nil_r. by apply Hjoin.
    + intros frame Hin. apply Hfree. rewrite app_nil_r in Hin.
      apply elem_of_app. by left.
Qed.

Lemma frames_lose_only_a_blank_tail_witness :
  let chunks :=
    [Reference.bytes "data: a||da"; Reference.bytes "ta: b|| |"] in
  frames (Decoder := Reference.utf8) chunks
  = [utf16 "data: a"; utf16 "data: b"]
  /\ ~ occurs blank_line (utf16 "data: b").
Proof.
  cbv zeta. split; [by vm_compute|].
  destruct (frames_lose_only_a_blank_tail (Decoder := Reference.utf8)
              [Reference.bytes "data: a||da"; Reference.bytes "ta: b|| |"])
    as [_ H].
  apply H. apply (bool_decide_unpack _). by vm_compute.
Defined.

Section NoBlankLine.
Context `{JSON : JsonRuntime} `{Decoder : TextDecoder}.

Lemma occurs_prefix sep a b : occurs sep a -> occurs sep (a ++ b).
Proof.
  intros (x & y & ->). exists x, (y ++ b). by rewrite <- !app_assoc.
Qed.

Lemma read_loop_no_blank_line {S} (h : text -> M S bool) chunks d buffer s :
  ~ occurs blank_line (buffer ++ (decode_bytes d (concat chunks)).2) ->
  read_loop h (map (fun c => Resolved (Some c) false) chunks) d buffer false s
  = (s, inr (Awaiting (buffer ++ (decode_bytes d (concat chunks)).2)
                      (decode_bytes d (concat chunks)).1)).
Proof.
  revert d buffer.
  induction chunks as [|c chunks IH]; intros d buffer Hfree.
  - cbn. by rewrite app_nil_r.
  - cbn [map concat read_loop negb] in *. change (default [] (Some c)) with c.
    unfold decode. rewrite decode_bytes_app in Hfree |- *.
    destruct (decode_bytes d c) as [d1 t1].
    destruct (decode_bytes d1 (concat chunks)) as [d2 t2] eqn:Hrest.
    cbn [fst snd] in *. rewrite app_assoc in Hfree |- *.
    rewrite (split_no_occurrence [LF; LF] (buffer ++ t1)); [|done|].
    2:{ intros Hocc. apply Hfree. by apply occurs_prefix. }
    unfold pop. cbn [removelast last for_segments].
    unfold mbind, M_bind, mret, M_ret.
    change (default [] (Some ?x)) with x.
    rewrite IH; rewrite Hrest; [done|]. by cbn [snd].
Qed.
End NoBlankLine.

(** X11.  The loop splits on two line feeds only.  If the decoded stream never
    holds two consecutive line feeds (as when the service ends its lines
    with CR LF), no frame is produced while the stream is being delivered,
    no chunk is applied, and at its end the whole text is handed over as one
    frame, provided it is not blank. *)
Theorem stream_without_blank_line_is_one_frame `{JSON : JsonRuntime}
    `{Decoder : TextDecoder} (chunks : list (list byte)) :
  ~ occurs blank_line (decode_all (concat chunks)) ->
  frames chunks = spec_on_end (decode_all (concat chunks))
  /\ chunks_applied
       (Response true (Some (map (fun c => Resolved (Some c) false) chunks)))
     = [].
Proof.
  intros Hfree. split.
  - rewrite frames_whole.
    pose proof (whole_stream_frames_eq [] (decode_all (concat chunks))) as E.
    cbn [app] in E. rewrite E, spec_on_chunk_eq. cbn [app fst snd].
    by rewrite split_no_occurrence.
  - unfold chunks_applied. cbn [stream_response].
    rewrite read_loop_no_blank_line; [done|]. cbn [app].
    intros Hocc. apply Hfree. unfold decode_all, decode.
    destruct (decode_bytes new_TextDecoder (concat chunks)) as [d t].
    cbn [fst snd] in *. by apply occurs_prefix.
Qed.

Lemma stream_without_blank_line_is_one_frame_witness :
  let crlf := [x0d; x0a; x0d; x0a] in
  let chunks :=
    [Reference.bytes "data: {'event':'chunk','content':'A'}" ++ crlf;
     Reference.bytes "data: {'event':'chunk','content':'B'}" ++ crlf] in
  length (frames (Decoder := Reference.utf8) chunks) = 1%nat
  /\ chunks_applied (JSON := Reference.json) (Decoder := Reference.utf8)
       (Response true (Some (map (fun c => Resolved (Some c) false) chunks)))
     = [].
Proof.
  cbv zeta.
  destruct (stream_without_blank_line_is_one_frame (JSON := Reference.json)
              (Decoder := Reference.utf8)
              [Reference.bytes "data: {'event':'chunk','content':'A'}"
                 ++ [x0d; x0a; x0d; x0a];
               Reference.bytes "data: {'event':'chunk','content':'B'}"
                 ++ [x0d; x0a; x0d; x0a]]) as [H1 H2].
  - apply find_first_None. by vm_compute.
  - split; [|exact H2]. exact (eq_trans (f_equal length H1) eq_refl).
Defined.

(** ** The theme over a reload *)

(** X12.  The theme the effect stores is the theme the next start of the component
    reads back, whatever the system prefers and whatever was stored or set
    before; the class of the root element says whether the theme is dark;
    the other keys of the storage are left as they were. *)
Theorem stored_theme_is_restored (theme : Theme) (w : Window) :
  prefersDarkTheme (Some (theme_effect theme w)) = theme
  /\ (root_has_dark_class (theme_effect theme w) = true <-> theme = dark)
  /\ (forall k, k <> THEME_STORAGE_KEY ->
        localStorage (theme_effect theme w) !! k = localStorage w !! k).
Proof.
  split; [|split].
  - unfold prefersDarkTheme, theme_effect. cbn [localStorage].
    rewrite lookup_insert_eq. by destruct theme.
  - by destruct theme.
  - intros k Hk. unfold theme_effect. cbn [localStorage].
    by rewrite lookup_insert_ne.
Qed.

Lemma stored_theme_is_restored_witness :
  let w :=
    {| localStorage :=
         <[utf16 "draft" := utf16 "hello"]>
           (<[THEME_STORAGE_KEY := utf16 "sepia"]> ∅);
       prefers_color_scheme_dark := true;
       root_has_dark_class := true |} in
  prefersDarkTheme (Some w) = dark
  /\ prefersDarkTheme (Some (theme_effect light w)) = light
  /\ localStorage (theme_effect light w) !! utf16 "draft"
     = Some (utf16 "hello").
Proof.
  cbv zeta. split; [by vm_compute|].
  destruct (stored_theme_is_restored light
              {| localStorage :=
                   <[utf16 "draft" := utf16 "hello"]>
                     (<[THEME_STORAGE_KEY := utf16 "sepia"]> ∅);
                 prefers_color_scheme_dark := true;
                 root_has_dark_class := true |}) as (H1 & _ & H3).
  split; [exact H1|].
  rewrite H3; [by vm_compute|by vm_compute].
Defined.

(** ** The route of the service *)

Lemma strip_final_slash_snoc (o : text) : strip_final_slash (o ++ [47]) = o.
Proof.
  unfold strip_final_slash. rewrite last_snoc.
  by rewrite removelast_last.
Qed.

Lemma strip_final_slash_other (o : text) :
  last o <> Some 47 -> strip_final_slash o = o.
Proof.
  unfold strip_final_slash. intros Hlast.
  destruct (last o) as [c|]; [|done].
  destruct (decide (c = 47)) as [->|Hc]; [done|].
  destruct c as [|p]; [done|].
  do 7 (try destruct p as [p|p|]); done.
Qed.

(** X13.  The route is never the empty text; a configured address that is not
    blank is the route, trimmed, whatever the origin of the page. *)
Theorem api_route_is_never_empty (VITE_BACKEND_URL origin : option text) :
  apiRoute VITE_BACKEND_URL origin <> []
  /\ (forall url, VITE_BACKEND_URL = Some url -> ~ blank url ->
        apiRoute VITE_BACKEND_URL origin = trim url).
Proof.
  assert (Hfallback :
    match origin with
    | Some o => strip_final_slash o ++ utf16 "/api/chat"
    | None => utf16 "/api/chat"
    end <> []).
  { destruct origin as [o|]; [|done].
    intros H. by apply app_eq_nil in H as [_ ?]. }
  split.
  - unfold apiRoute. destruct VITE_BACKEND_URL as [url|]; [|done].
    destruct (trim url) eqn:E; [done|]. cbn. done.
  - intros url -> Hblank. unfold apiRoute.
    destruct (trim url) eqn:E; [|done].
    destruct Hblank. by apply trim_nil.
Qed.

Lemma api_route_is_never_empty_witness :
  apiRoute (Some (utf16 "  https://api.example/chat ")) (Some (utf16 "http://h"))
  = utf16 "https://api.example/chat".
Proof.
  destruct (api_route_is_never_empty
              (Some (utf16 "  https://api.example/chat "))
              (Some (utf16 "http://h"))) as [_ H].
  rewrite (H (utf16 "  https://api.example/chat ") eq_refl).
  - by vm_compute.
  - intros Hblank. apply trim_nil in Hblank. by vm_compute in Hblank.
Defined.

(** X14.  Without a configured address, or with a blank one, the route is the
    origin of the page followed by [/api/chat], and one slash at the end of
    the origin makes no difference. *)
Theorem fallback_route_drops_final_slash (VITE_BACKEND_URL : option text)
    (o : text) :
  (forall url, VITE_BACKEND_URL = Some url -> blank url) ->
  apiRoute VITE_BACKEND_URL (Some (o ++ [47])) = o ++ utf16 "/api/chat"
  /\ (last o <> Some 47 ->
      apiRoute VITE_BACKEND_URL (Some o) = o ++ utf16 "/api/chat").
Proof.
  intros Hblank.
  assert (Hroute : forall origin,
    apiRoute VITE_BACKEND_URL (Some origin)
    = strip_final_slash origin ++ utf16 "/api/chat").
  { intros origin. unfold apiRoute.
    destruct VITE_BACKEND_URL as [url|]; [|done].
    specialize (Hblank url eq_refl). apply trim_nil in Hblank.
    by rewrite Hblank. }
  split.
  - by rewrite Hroute, strip_final_slash_snoc.
  - intros Hlast. by rewrite Hroute, strip_final_slash_other.
Qed.

Lemma fallback_route_drops_final_slash_witness :
  apiRoute (Some (utf16 "  ")) (Some (utf16 "http://localhost:5173/"))
  = utf16 "http://localhost:5173/api/chat"
  /\ apiRoute (Some (utf16 "  ")) (Some (utf16 "http://localhost:5173"))
     = utf16 "http://localhost:5173/api/chat".
Proof.
  destruct (fallback_route_drops_final_slash (Some (utf16 "  "))
              (utf16 "http://localhost:5173")) as [H1 H2].
  - intros url [= <-]. apply trim_nil. by vm_compute.
  - split; [exact H1|]. apply H2. by vm_compute.
Defined.

(** X15.  The rewrite of the development proxy changes no path: the prefix it
    looks for is replaced by itself. *)
Theorem proxy_rewrite_changes_nothing (path : text) :
  proxy_rewrite path = path.
Proof.
  unfold proxy_rewrite.
  destruct (startsWith (utf16 "/api/chat") path) eqn:E; [|done].
  symmetry. by apply startsWith_true in E.
Qed.

(** ** The form and the guard of [handleSubmit] *)

(** X16.  The send button is disabled in exactly the states in which
    [handleSubmit] ignores a submission, and the Enter key is bound to the
    same handler: pressed without Shift it does what the button does, so on
    a disabled button it changes nothing; with Shift, or for another key,
    the handler does nothing.  The Stop button is enabled exactly while the
    text area is disabled. *)
Theorem send_is_disabled_when_submission_is_ignored `{JSON : JsonRuntime}
    `{Decoder : TextDecoder} (userId assistantId : text) (net : FetchResult)
    (st : AppState) :
  (submitDisabled (render st) = true
   <-> outcome (handleSubmit userId assistantId net st) = Ignored)
  /\ (forall event,
        handleKeyDown event userId assistantId net st
        = if bool_decide (key event = utf16 "Enter")
          then if shiftKey event then None
               else Some (handleSubmit userId assistantId net st)
          else None)
  /\ (forall event submission,
        submitDisabled (render st) = true ->
        handleKeyDown event userId assistantId net st = Some submission ->
        state submission = st /\ request submission = None)
  /\ stopDisabled (render st) = negb (textareaDisabled (render st)).
Proof.
  assert (Hguard :
    submitDisabled (render st) = true ->
    handleSubmit userId assistantId net st
    = {| state := st; request := None; outcome := Ignored |}).
  { cbn [render submitDisabled]. unfold handleSubmit, handleSubmit_of_render. by intros ->. }
  split; [split|split; [|split]].
  - intros H. by rewrite Hguard.
  - cbn [render submitDisabled]. unfold handleSubmit, handleSubmit_of_render.
    destruct ((length (trim (inputValue st)) =? 0)%nat || isStreaming st);
      [done|].
    by destruct (stream_response _ net _) as [st' [e|[b|b d]]].
  - intros event. unfold handleKeyDown.
    by destruct (bool_decide (key event = utf16 "Enter")), (shiftKey event).
  - intros event submission Hdisabled. unfold handleKeyDown.
    destruct (_ && _); [|done]. intros [= <-]. by rewrite Hguard.
  - done.
Qed.

Lemma send_is_disabled_when_submission_is_ignored_witness :
  let st := fresh (utf16 "   ") in
  let net := Response true (Some [Resolved None true]) in
  submitDisabled (render st) = true
  /\ handleKeyDown (JSON := Reference.json) (Decoder := Reference.utf8)
       {| key := utf16 "Enter"; shiftKey := false |}
       (utf16 "u1") (utf16 "a1") net st
     = Some {| state := st; request := None; outcome := Ignored |}.
Proof.
  cbv zeta.
  destruct (send_is_disabled_when_submission_is_ignored
              (JSON := Reference.json) (Decoder := Reference.utf8)
              (utf16 "u1") (utf16 "a1")
              (Response true (Some [Resolved None true]))
              (fresh (utf16 "   "))) as (_ & _ & H & _).
  split; [by vm_compute|].
  destruct (H {| key := utf16 "Enter"; shiftKey := false |}
              {| state := fresh (utf16 "   "); request := None;
                 outcome := Ignored |}); by vm_compute.
Defined.

(** ** normalizeMath *)

Section MathFacts.
Implicit Types (s p r : text) (a b c : char).

Lemma occurs_elem c p s : occurs (c :: p) s -> c ∈ s.
Proof.
  intros (x & y & ->). apply elem_of_app. right. by left.
Qed.

Lemma occurs_suffix sep x y : occurs sep y -> occurs sep (x ++ y).
Proof.
  intros (u & v & ->). exists (x ++ u), v. by rewrite <- !app_assoc.
Qed.

Lemma occurs_pair_app a b x y :
  occurs [a; b] (x ++ y) ->
  occurs [a; b] x \/ occurs [a; b] y \/ (last x = Some a /\ head y = Some b).
Proof.
  intros (u & v & E). apply app_eq_inv in E as [(k & -> & E)|(k & -> & ->)].
  - destruct k as [|a' [|b' k]].
    + cbn in E. subst y. right. left. by exists [], v.
    + injection E as <- <-. right. right. split; [|done].
      by rewrite last_snoc.
    + injection E as <- <- ->. left. by exists u, k.
  - right. left. by exists k, v.
Qed.

Lemma join_segment sep segment segments :
  segment ∈ segments ->
  exists x y, join sep segments = x ++ segment ++ y.
Proof.
  induction segments as [|s rest IH]; [by intros ?%elem_of_nil|].
  intros [->|Hin]%elem_of_cons.
  - destruct rest as [|t rest].
    + exists [], []. cbn. by rewrite app_nil_r.
    + exists [], (sep ++ join sep (t :: rest)). done.
  - destruct rest as [|t rest]; [by apply elem_of_nil in Hin|].
    destruct (IH Hin) as (x & y & E).
    exists (s ++ sep ++ x), y.
    change (join sep (s :: t :: rest)) with (s ++ sep ++ join sep (t :: rest)).
    rewrite E. by rewrite <- !app_assoc.
Qed.

Lemma split_segment_occurs sep s segment q :
  sep <> [] -> segment ∈ split sep s -> occurs q segment -> occurs q s.
Proof.
  intros Hsep Hin Hocc.
  destruct (join_segment sep _ _ Hin) as (x & y & E).
  rewrite join_split in E by done. rewrite E.
  apply occurs_suffix. by apply occurs_prefix.
Qed.

Lemma join_pair_free a b r segments :
  r <> [] -> a ∉ r -> b ∉ r ->
  (forall segment, segment ∈ segments -> ~ occurs [a; b] segment) ->
  ~ occurs [a; b] (join r segments).
Proof.
  intros Hr Ha Hb. induction segments as [|s rest IH]; intros Hfree.
  - intros (x & y & E). by destruct x.
  - destruct rest as [|t rest].
    + apply Hfree. by left.
    + change (join r (s :: t :: rest)) with (s ++ r ++ join r (t :: rest)).
      intros [H|[H|[_ H]]]%occurs_pair_app.
      * by apply (Hfree s); [left|].
      * apply occurs_pair_app in H as [H|[H|[H _]]].
        -- apply Ha. by apply occurs_elem in H.
        -- revert H. apply IH. intros segment Hin. apply Hfree. by right.
        -- apply Ha. apply last_Some in H as [l' ->].
           apply elem_of_app. right. by left.
      * apply Hb. destruct r as [|c r]; [done|]. injection H as ->. by left.
Qed.

Lemma replaceAll_absent p r s :
  p <> [] -> ~ occurs p s -> replaceAll p r s = s.
Proof.
  intros Hp Hfree. unfold replaceAll. by rewrite split_no_occurrence.
Qed.

Lemma replaceAll_removes a b r s :
  r <> [] -> a ∉ r -> b ∉ r -> ~ occurs [a; b] (replaceAll [a; b] r s).
Proof.
  intros Hr Ha Hb. apply join_pair_free; [done..|].
  intros segment Hin. by apply (split_segments_free [a; b] s).
Qed.

Lemma replaceAll_preserves a b p r s :
  p <> [] -> r <> [] -> a ∉ r -> b ∉ r ->
  ~ occurs [a; b] s -> ~ occurs [a; b] (replaceAll p r s).
Proof.
  intros Hp Hr Ha Hb Hfree. apply join_pair_free; [done..|].
  intros segment Hin Hocc. apply Hfree.
  by apply (split_segment_occurs p s segment).
Qed.

Lemma white_run_le s : (white_run s <= length s)%nat.
Proof. induction s as [|c s IH]; cbn; [lia|]. destruct (is_space c); cbn; lia. Qed.

Lemma white_run_blank s : blank (take (white_run s) s).
Proof.
  induction s as [|c s IH]; cbn; [constructor|].
  destruct (is_space c) eqn:E; cbn; [|constructor].
  by constructor.
Qed.

Lemma last_terminator_lt w i :
  last_terminator w = Some i -> (i < length w)%nat.
Proof.
  revert i. induction w as [|c w IH]; intros i; cbn; [done|].
  destruct (last_terminator w) as [j|].
  - intros [= <-]. specialize (IH j eq_refl). lia.
  - destruct (is_line_terminator c); [|done]. intros [= <-]. lia.
Qed.

Lemma trailing_match_blank rest m :
  trailing_match rest = Some m ->
  blank (take m rest) /\ (m <= length rest)%nat.
Proof.
  unfold trailing_match. pose proof (white_run_le rest) as Hle.
  pose proof (white_run_blank rest) as Hblank.
  destruct (white_run rest =? length rest)%nat eqn:E.
  - intros [= <-]. done.
  - intros Hlast%last_terminator_lt. rewrite length_take in Hlast.
    split; [|lia].
    replace (take m rest) with (take m (take (white_run rest) rest)).
    + by apply Forall_take.
    + rewrite take_take. f_equal. lia.
Qed.

Lemma match_dollar_line_shape s n :
  match_dollar_line s = Some n ->
  exists leading trailing,
    take n s = leading ++ 36 :: trailing
    /\ blank leading /\ blank trailing /\ (0 < n <= length s)%nat.
Proof.
  unfold match_dollar_line.
  pose proof (white_run_blank s) as Hblank.
  pose proof (take_drop (white_run s) s) as Hs.
  pose proof (white_run_le s) as Hle.
  destruct (drop (white_run s) s) as [|c rest] eqn:Hdrop; [done|].
  destruct (decide (c = 36)) as [->|Hc].
  2:{ destruct c as [|p]; [done|]. do 6 (try destruct p as [p|p|]); done. }
  destruct (trailing_match rest) as [m|] eqn:Hm; [|done].
  cbn. intros [= <-]. apply trailing_match_blank in Hm as [Htrail Hlen].
  exists (take (white_run s) s), (take m rest).
  assert (Hlength : length s = (white_run s + S (length rest))%nat).
  { rewrite <- Hs at 1. rewrite length_app, length_take. cbn. lia. }
  split; [|split; [done|split; [done|lia]]].
  trans (take (white_run s + 1 + m) (take (white_run s) s ++ 36 :: rest));
    [by rewrite Hs|].
  rewrite take_app, take_take, length_take.
  replace (white_run s + 1 + m - white_run s `min` length s)%nat with (S m)
    by lia.
  cbn [take]. f_equal. f_equal. lia.
Qed.

Lemma filter_blank s :
  blank s -> List.filter (fun c => negb (is_space c)) s = [].
Proof.
  induction 1 as [|c s Hc _ IH]; [done|]. cbn. by rewrite Hc.
Qed.

Lemma replace_dollar_lines_letters fuel line_start s :
  List.filter (fun c => negb (is_space c))
    (replace_dollar_lines fuel line_start s)
  = List.filter (fun c => negb (is_space c)) s.
Proof.
  revert line_start s. induction fuel as [|fuel IH]; intros line_start s;
    [done|].
  destruct s as [|c s]; [done|]. cbn [replace_dollar_lines].
  destruct (if line_start then match_dollar_line (c :: s) else None)
    as [n|] eqn:Hmatch.
  - assert (Hn : match_dollar_line (c :: s) = Some n)
      by (by destruct line_start).
    apply match_dollar_line_shape in Hn
      as (leading & trailing & Htake & Hl & Ht & _).
    remember (c :: s) as t eqn:Et. clear Et.
    cbn [List.filter]. change (negb (is_space 36)) with true. rewrite IH.
    rewrite <- (take_drop n t) at 2. rewrite Htake.
    rewrite !List.filter_app. cbn [List.filter].
    change (negb (is_space 36)) with true.
    by rewrite (filter_blank leading), (filter_blank trailing).
  - cbn [List.filter]. by rewrite IH.
Qed.

Lemma replace_dollar_lines_length fuel line_start s :
  (length (replace_dollar_lines fuel line_start s) <= length s)%nat.
Proof.
  revert line_start s. induction fuel as [|fuel IH]; intros line_start s;
    [done|].
  destruct s as [|c s]; [done|]. cbn [replace_dollar_lines].
  destruct (if line_start then match_dollar_line (c :: s) else None)
    as [n|] eqn:Hmatch.
  - assert (Hn : match_dollar_line (c :: s) = Some n)
      by (by destruct line_start).
    apply match_dollar_line_shape in Hn as (_ & _ & _ & _ & _ & Hlen).
    cbn [length]. etrans; [apply le_n_S, IH|].
    rewrite length_drop. cbn [length] in *. lia.
  - cbn [length]. apply le_n_S, IH.
Qed.

Lemma replace_dollar_lines_no_dollar fuel line_start s :
  36 ∉ s -> replace_dollar_lines fuel line_start s = s.
Proof.
  revert line_start s. induction fuel as [|fuel IH]; intros line_start s Hno;
    [done|].
  destruct s as [|c s]; [done|]. cbn [replace_dollar_lines].
  destruct (if line_start then match_dollar_line (c :: s) else None)
    as [n|] eqn:Hmatch.
  - assert (Hn : match_dollar_line (c :: s) = Some n)
      by (by destruct line_start).
    apply match_dollar_line_shape in Hn as (leading & trailing & Htake & _).
    destruct Hno. rewrite <- (take_drop n (c :: s)), Htake.
    apply elem_of_app. left. apply elem_of_app. right. by left.
  - f_equal. apply IH. intros Hin. apply Hno. by right.
Qed.

Lemma replace_dollar_lines_head fuel line_start s :
  head (replace_dollar_lines fuel line_start s) = Some 36
  \/ head (replace_dollar_lines fuel line_start s) = head s.
Proof.
  destruct fuel as [|fuel]; [by right|]. destruct s as [|c s]; [by right|].
  cbn [replace_dollar_lines].
  destruct (if line_start then match_dollar_line (c :: s) else None);
    [by left|by right].
Qed.

Lemma replace_dollar_lines_pair a b fuel line_start s :
  a <> 36 -> b <> 36 ->
  occurs [a; b] (replace_dollar_lines fuel line_start s) -> occurs [a; b] s.
Proof.
  intros Ha Hb. revert line_start s.
  induction fuel as [|fuel IH]; intros line_start s; [done|].
  destruct s as [|c s]; [done|]. cbn [replace_dollar_lines].
  destruct (if line_start then match_dollar_line (c :: s) else None)
    as [n|] eqn:Hmatch.
  - intros [H|[H|[H _]]]%(occurs_pair_app a b [36]).
    + destruct H as (x & y & E). by destruct x as [|? [|? ?]].
    + apply IH in H. rewrite <- (take_drop n (c :: s)).
      by apply occurs_suffix.
    + by injection H as <-.
  - intros [H|[H|[Hlast Hhead]]]%(occurs_pair_app a b [c]).
    + destruct H as (x & y & E). by destruct x as [|? [|? ?]].
    + apply IH in H. by apply (occurs_suffix _ [c]).
    + injection Hlast as ->.
      destruct (replace_dollar_lines_head fuel (is_line_terminator a) s)
        as [E|E]; rewrite E in Hhead.
      * by injection Hhead as <-.
      * destruct s as [|b' s]; [done|]. injection Hhead as ->.
        by exists [], s.
Qed.
End MathFacts.

Local Ltac absent := apply (bool_decide_unpack _); by vm_compute.

(** X17.  The result of [normalizeMath] holds none of the four TeX delimiters
    (a backslash followed by a bracket or a parenthesis), whatever the
    message. *)
Theorem normalizeMath_leaves_no_tex_delimiter (value : text) (d : char) :
  d ∈ [91; 93; 40; 41] -> ~ occurs [92; d] (normalizeMath value).
Proof.
  intros Hd Hocc. unfold normalizeMath in Hocc. cbv zeta in Hocc.
  apply replace_dollar_lines_pair in Hocc; [|done|].
  2:{ intros ->. revert Hd. absent. }
  revert Hocc.
  repeat (apply elem_of_cons in Hd as [->|Hd]);
    [| | | |by apply elem_of_nil in Hd].
  - do 3 (apply replaceAll_preserves; [done|done|absent|absent|]).
    apply replaceAll_removes; [done|absent|absent].
  - do 2 (apply replaceAll_preserves; [done|done|absent|absent|]).
    apply replaceAll_removes; [done|absent|absent].
  - do 1 (apply replaceAll_preserves; [done|done|absent|absent|]).
    apply replaceAll_removes; [done|absent|absent].
  - apply replaceAll_removes; [done|absent|absent].
Qed.

Lemma normalizeMath_leaves_no_tex_delimiter_witness :
  ~ occurs [92; 93] (normalizeMath (utf16 "a \[ x \] and \\] b")).
Proof.
  apply (normalizeMath_leaves_no_tex_delimiter
           (utf16 "a \[ x \] and \\] b") 93).
  apply (bool_decide_unpack _). by vm_compute.
Defined.

(** X18.  On a message that holds no CR LF and no TeX delimiter, [normalizeMath]
    only removes white space (around a dollar sign that is alone on its
    line): the other characters are kept, in order, and the text does not
    grow.  If the message holds no dollar sign either, it is unchanged. *)
Theorem normalizeMath_only_trims_dollar_lines (value : text) :
  ~ occurs [13; 10] value ->
  (forall d, d ∈ [91; 93; 40; 41] -> ~ occurs [92; d] value) ->
  List.filter (fun c => negb (is_space c)) (normalizeMath value)
  = List.filter (fun c => negb (is_space c)) value
  /\ (length (normalizeMath value) <= length value)%nat
  /\ (36 ∉ value -> normalizeMath value = value).
Proof.
  intros Hcrlf Htex.
  assert (E : normalizeMath value
              = replace_dollar_lines (length value) true value).
  { unfold normalizeMath. cbv zeta.
    rewrite (replaceAll_absent [13; 10]) by done.
    rewrite (replaceAll_absent [92; 91]) by (done || apply Htex; absent).
    rewrite (replaceAll_absent [92; 93]) by (done || apply Htex; absent).
    rewrite (replaceAll_absent [92; 40]) by (done || apply Htex; absent).
    by rewrite (replaceAll_absent [92; 41]) by (done || apply Htex; absent). }
  rewrite E. split; [|split].
  - apply replace_dollar_lines_letters.
  - apply replace_dollar_lines_length.
  - apply replace_dollar_lines_no_dollar.
Qed.

Lemma normalizeMath_only_trims_dollar_lines_witness :
  let value := [97; 10; 32; 36; 32; 32; 10; 98] in
  normalizeMath value = [97; 10; 36; 10; 98]
  /\ List.filter (fun c => negb (is_space c)) (normalizeMath value)
     = [97; 36; 98].
Proof.
  cbv zeta. split; [by vm_compute|].
  destruct (normalizeMath_only_trims_dollar_lines
              [97; 10; 32; 36; 32; 32; 10; 98]) as (H & _ & _).
  - apply find_first_None. by vm_compute.
  - intros d Hd. apply find_first_None.
    repeat (apply elem_of_cons in Hd as [->|Hd]);
      [by vm_compute..|by apply elem_of_nil in Hd].
  - exact H.
Defined.

(** ** The renderer of code elements *)

Section CodeFacts.
Implicit Types (s : text) (c : char).

Lemma word_run_le s : (word_run s <= length s)%nat.
Proof.
  induction s as [|c s IH]; cbn; [lia|]. destruct (is_word c); cbn; lia.
Qed.

Lemma word_run_word s :
  Forall (fun c => is_word c = true) (take (word_run s) s).
Proof.
  induction s as [|c s IH]; cbn; [constructor|].
  destruct (is_word c) eqn:E; cbn; [|constructor].
  by constructor.
Qed.

Lemma word_run_stop s c rest :
  drop (word_run s) s = c :: rest -> is_word c = false.
Proof.
  induction s as [|c' s IH]; cbn; [done|].
  destruct (is_word c') eqn:E; cbn; [done|]. by intros [= <- _].
Qed.

Lemma language_of_Some className language :
  language_of className = Some language ->
  language <> []
  /\ Forall (fun c => is_word c = true) language
  /\ exists before after,
       className = before ++ utf16 "language-" ++ language ++ after
       /\ match after with c :: _ => is_word c = false | [] => True end.
Proof.
  induction className as [|c rest IH]; [done|].
  cbn [language_of].
  destruct (startsWith (utf16 "language-") (c :: rest)
            && (0 <? word_run (drop 9 (c :: rest)))%nat) eqn:Hhere.
  - clear IH. remember (c :: rest) as cls eqn:Ecls. clear Ecls.
    apply andb_prop in Hhere as [Hprefix Hword].
    apply startsWith_true in Hprefix.
    change (length (utf16 "language-")) with 9%nat in Hprefix.
    remember (drop 9 cls) as tail eqn:Etail. clear Etail.
    intros [= <-]. apply Nat.ltb_lt in Hword.
    pose proof (word_run_le tail) as Hle. split; [|split].
    + intros E%(f_equal length). rewrite length_take in E.
      cbn [length] in E. lia.
    + apply word_run_word.
    + exists [], (drop (word_run tail) tail). split.
      * cbn [app]. by rewrite Hprefix, take_drop.
      * destruct (drop (word_run tail) tail) as [|c' after] eqn:E;
          [done|]. by apply word_run_stop in E.
  - intros (Hne & Hword & before & after & -> & Hstop)%IH.
    split; [done|split; [done|]]. by exists (c :: before), after.
Qed.

Lemma language_of_None className :
  ~ occurs (utf16 "language-") className -> language_of className = None.
Proof.
  induction className as [|c rest IH]; [done|]. intros Hfree.
  cbn [language_of].
  destruct (startsWith (utf16 "language-") (c :: rest)) eqn:Hprefix.
  - destruct Hfree. apply startsWith_true in Hprefix.
    exists [], (drop (length (utf16 "language-")) (c :: rest)).
    by rewrite app_nil_l.
  - cbn [andb]. apply IH. intros Hocc. apply Hfree.
    by apply (occurs_suffix _ [c]).
Qed.
End CodeFacts.

(** X19.  A code element is given to the highlighter only when it is not inline
    and its class names a language.  The language is then a non-empty word
    that follows [language-] in the class and ends where the word ends, and
    the source is the text of the element without one final line feed. *)
Theorem highlighted_code_has_a_language (inline : option bool)
    (className : option text) (children language source : text) :
  code inline className children = Highlighter language source ->
  inline <> Some true
  /\ language <> []
  /\ Forall (fun c => is_word c = true) language
  /\ (exists class before after,
        className = Some class
        /\ class = before ++ utf16 "language-" ++ language ++ after
        /\ match after with c :: _ => is_word c = false | [] => True end)
  /\ (children = source ++ [10]
      \/ children = source /\ last children <> Some 10).
Proof.
  unfold code.
  destruct (language_of (default [] className)) as [l|] eqn:Hlanguage;
    [|done].
  destruct inline as [[|]|]; cbn [default negb]; [done| |].
  all: intros [= <- <-].
  all: apply language_of_Some in Hlanguage
         as (Hne & Hword & before & after & Hclass & Hstop).
  all: split; [done|split; [done|split; [done|split]]].
  all: try (destruct className as [class|];
            [by exists class, before, after
            |by destruct before; cbn in Hclass]).
  all: destruct (last children) as [c|] eqn:Hlast; [|by right].
  all: destruct (decide (c = 10)) as [->|Hc];
         [left; apply last_Some in Hlast as [front ->];
          by rewrite removelast_last|].
  all: right; split; [|by intros [= ->]].
  all: destruct c as [|p]; [done|]; do 4 (try destruct p as [p|p|]); done.
Qed.

Lemma highlighted_code_has_a_language_witness :
  code None (Some (utf16 "hljs language-python extra"))
    [112; 97; 115; 115; 10; 10]
  = Highlighter (utf16 "python") [112; 97; 115; 115; 10]
  /\ utf16 "python" <> [].
Proof.
  split; [by vm_compute|].
  by destruct (highlighted_code_has_a_language None
                 (Some (utf16 "hljs language-python extra"))
                 [112; 97; 115; 115; 10; 10]
                 (utf16 "python") [112; 97; 115; 115; 10] eq_refl)
    as (_ & H & _).
Defined.

(** X20.  Without [language-] in the class, or without a class, or for an inline
    element, the plain [code] element is rendered, never the
    highlighter. *)
Theorem code_without_language_is_plain (inline : option bool)
    (className : option text) (children : text) :
  inline = Some true
  \/ ~ occurs (utf16 "language-") (default [] className) ->
  code inline className children = PlainCode.
Proof.
  unfold code. intros [->|Hfree].
  - by destruct (language_of _).
  - by rewrite language_of_None.
Qed.

Lemma code_without_language_is_plain_witness :
  code None (Some (utf16 "lang-python")) (utf16 "pass") = PlainCode.
Proof.
  apply code_without_language_is_plain. right.
  apply find_first_None. by vm_compute.
Defined.
